(** * Knowledge base of the equity research tool: a shallow embedding

    The development follows [src/knowledge_base.py].  A stored item is a
    Python dict, here a finite map from field names to values; the three
    JSON files are the components of the store; an exception raised inside a
    [try] block is the [None] of the option monad, and every function that
    catches it says so where it does. *)

From Stdlib Require Import ZArith QArith String Ascii List Lia Lqa.
From Stdlib Require Import DecimalString DecimalZ DecimalPos.
From stdpp Require Import base option list gmap strings fin_maps sorting.

#[local] Set Warnings "-clear-no-such-hyp".

Close Scope Q_scope.
Local Open Scope string_scope.
Local Open Scope list_scope.

(** ** Strings

    A Python string is represented by the bytes of its UTF-8 encoding.
    Equality, concatenation, the substring test [in] and [split(',')] act on
    these bytes as they act on the characters: in UTF-8 no character's
    bytes begin inside another's.  The methods of [str] that read the
    Unicode tables, [lower], [upper], [split] without argument and [strip],
    and the iteration over a string, belong to Python and not to the
    repository; they form the interface [Str] below.  On ASCII text they
    are the functions written out here. *)

Definition lower_char (c : ascii) : ascii :=
  let n := nat_of_ascii c in
  if (65 <=? n)%nat && (n <=? 90)%nat then ascii_of_nat (n + 32) else c.

Definition upper_char (c : ascii) : ascii :=
  let n := nat_of_ascii c in
  if (97 <=? n)%nat && (n <=? 122)%nat then ascii_of_nat (n - 32) else c.

Fixpoint ascii_lower (s : string) : string :=
  match s with
  | EmptyString => EmptyString
  | String c s' => String (lower_char c) (ascii_lower s')
  end.

Fixpoint ascii_upper (s : string) : string :=
  match s with
  | EmptyString => EmptyString
  | String c s' => String (upper_char c) (ascii_upper s')
  end.

(** [starts_with s t]: [t] begins with [s]. *)
Fixpoint starts_with (s t : string) : bool :=
  match s, t with
  | EmptyString, _ => true
  | String a s', String b t' => if Ascii.eqb a b then starts_with s' t' else false
  | String _ _, EmptyString => false
  end.

(** [contains s t] is Python's [s in t] on strings. *)
Fixpoint contains (s t : string) : bool :=
  starts_with s t ||
  match t with
  | EmptyString => false
  | String _ t' => contains s t'
  end.

(** The ASCII characters that are white space to [str.split()] and
    [str.strip()]: tab, line feed, vertical tab, form feed, carriage return,
    the four separators 28..31 and the space. *)
Definition py_space (c : ascii) : bool :=
  let n := nat_of_ascii c in
  ((9 <=? n)%nat && (n <=? 13)%nat) || ((28 <=? n)%nat && (n <=? 32)%nat).

(** [split_from word s]: the terms of [s], where [word] is the term read so
    far.  [ascii_split s] is [s.split()] on ASCII text: runs of white space
    separate the terms and no term is empty. *)
Fixpoint split_from (word s : string) : list string :=
  match s with
  | EmptyString => if String.eqb word "" then [] else [word]
  | String c s' =>
      if py_space c
      then (if String.eqb word "" then [] else [word]) ++ split_from "" s'
      else split_from (word +:+ String c "") s'
  end.

Definition ascii_split (s : string) : list string := split_from "" s.

(** [s.lstrip()] and [s.rstrip()], which make up [s.strip()], on ASCII
    text. *)
Fixpoint ascii_lstrip (s : string) : string :=
  match s with
  | EmptyString => EmptyString
  | String c s' => if py_space c then ascii_lstrip s' else s
  end.

Fixpoint ascii_rstrip (s : string) : string :=
  match s with
  | EmptyString => EmptyString
  | String c s' =>
      let r := ascii_rstrip s' in
      if py_space c && String.eqb r "" then EmptyString else String c r
  end.

Definition ascii_strip (s : string) : string := ascii_rstrip (ascii_lstrip s).

(** The characters of an ASCII string, one byte each. *)
Fixpoint ascii_chars (s : string) : list string :=
  match s with
  | EmptyString => []
  | String c s' => String c "" :: ascii_chars s'
  end.

(** The string is ASCII text: every byte is below 128. *)
Fixpoint is_ascii (s : string) : bool :=
  match s with
  | EmptyString => true
  | String c s' => (nat_of_ascii c <? 128)%nat && is_ascii s'
  end.

(** The interface: [lower s] is [s.lower()], [upper s] is [s.upper()],
    [split s] is [s.split()], [strip s] is [s.strip()] and [chars s] lists
    what [for c in s] yields.  The laws are Python's: on ASCII text the
    five are the functions above, and every term [split] returns is a piece
    of the string it was cut from. *)
Class Str := {
  lower : string → string;
  upper : string → string;
  split : string → list string;
  strip : string → string;
  chars : string → list string;
  lower_ascii : ∀ s, is_ascii s = true → lower s = ascii_lower s;
  upper_ascii : ∀ s, is_ascii s = true → upper s = ascii_upper s;
  split_ascii : ∀ s, is_ascii s = true → split s = ascii_split s;
  strip_ascii : ∀ s, is_ascii s = true → strip s = ascii_strip s;
  chars_ascii : ∀ s, is_ascii s = true → chars s = ascii_chars s;
  split_pieces : ∀ s, Forall (λ term, ∃ pre post, s = pre +:+ term +:+ post) (split s)
}.

(** [s.split(sep)] for a separator of one ASCII character: the pieces
    between the separators, empty pieces included; the empty string gives
    one empty piece. *)
Fixpoint split_on (sep : ascii) (s : string) : list string :=
  match s with
  | EmptyString => [EmptyString]
  | String c s' =>
      if Ascii.eqb c sep then EmptyString :: split_on sep s'
      else match split_on sep s' with
           | piece :: pieces => String c piece :: pieces
           | [] => [String c EmptyString]
           end
  end.

(** [sep.join(pieces)]. *)
Fixpoint join (sep : string) (pieces : list string) : string :=
  match pieces with
  | [] => ""
  | [piece] => piece
  | piece :: pieces => piece +:+ sep +:+ join sep pieces
  end.

(** ** Values and items *)

(** The JSON values the knowledge base stores: [None], a string, a number
    and a list of strings (the [List[str]] of the signatures). *)
Inductive value : Type :=
  | VNone
  | VStr (s : string)
  | VNum (q : Q)
  | VList (l : list string).

#[global] Instance Q_eq_dec : EqDecision Q.
Proof. solve_decision. Defined.

#[global] Instance value_eq_dec : EqDecision value.
Proof. solve_decision. Defined.

#[global] Instance Qeq_decision (a b : Q) : Decision (a == b)%Q := Qeq_dec a b.

(** An item is a dict from field names to values. *)
Abbreviation item := (gmap string value).

(** [get it key dflt] is [it.get(key, dflt)]. *)
Definition get (it : item) (key : string) (dflt : value) : value :=
  default dflt (it !! key).

(** [v.lower()]; only a string has the method, anything else raises. *)
Definition lower_of `{Str} (v : value) : option string :=
  match v with VStr s => Some (lower s) | _ => None end.

(** The elements of [v] when the code iterates over it expecting strings:
    a list gives its elements, a string its characters, [None] and numbers
    raise. *)
Definition strings_of `{Str} (v : value) : option (list string) :=
  match v with
  | VList l => Some l
  | VStr s => Some (chars s)
  | _ => None
  end.

(** [v == s] for a string [s]: a value that is not a string is unequal. *)
Definition eq_str (v : value) (s : string) : bool :=
  match v with VStr s' => String.eqb s' s | _ => false end.

(** ** The clock

    [datetime] belongs to Python's library, not to the repository, so the
    two functions the code calls are an interface.  An instant is a number
    of microseconds of naive local time; [fromisoformat] returns [None]
    where Python's raises.  The laws are Python's: [fromisoformat] inverts
    [isoformat], and the empty string is not a date. *)
Class Datetime := {
  isoformat : Z → string;
  fromisoformat : string → option Z;
  fromisoformat_isoformat : ∀ t, fromisoformat (isoformat t) = Some t;
  fromisoformat_empty : fromisoformat "" = None
}.

(** Microseconds in a day: [timedelta.days] is the floor of the difference
    divided by it. *)
Definition day : Z := 86400000000.

(** ** The store *)

(** A backing file is missing, unreadable (no permission, or not JSON), or
    holds the list of items [_save_data] wrote.  Writing always succeeds:
    the model has no failing medium. *)
Inductive file : Type :=
  | Missing
  | Unreadable
  | Data (items : list item).

Inductive path : Type := NotesFile | ArticlesFile | ResearchFile.

#[global] Instance path_eq_dec : EqDecision path.
Proof. solve_decision. Defined.

Record kb : Type := KB {
  notes_file : file;
  articles_file : file;
  research_file : file
}.

Definition read (st : kb) (p : path) : file :=
  match p with
  | NotesFile => notes_file st
  | ArticlesFile => articles_file st
  | ResearchFile => research_file st
  end.

Definition write (st : kb) (p : path) (f : file) : kb :=
  match p with
  | NotesFile => KB f (articles_file st) (research_file st)
  | ArticlesFile => KB (notes_file st) f (research_file st)
  | ResearchFile => KB (notes_file st) (articles_file st) f
  end.

(** [_init_storage]: a file that does not exist is created holding []. *)
Definition _init_storage (st : kb) : kb :=
  foldl (λ st p, match read st p with Missing => write st p (Data []) | _ => st end)
        st [NotesFile; ArticlesFile; ResearchFile].

(** [_load_data]: any failure to open or parse the file gives []. *)
Definition _load_data (st : kb) (p : path) : list item :=
  match read st p with
  | Data items => items
  | Missing | Unreadable => []
  end.

(** [_save_data]: the file is replaced by the given list. *)
Definition _save_data (st : kb) (p : path) (data : list item) : kb :=
  write st p (Data data).

(** The [if]/[elif] chain of [update_item] and [delete_item]; [None] is the
    final [else]. *)
Definition file_path (item_type : string) : option path :=
  if String.eqb item_type "notes" then Some NotesFile
  else if String.eqb item_type "articles" then Some ArticlesFile
  else if String.eqb item_type "research" then Some ResearchFile
  else None.

(** ** A stable sort by decreasing key

    [list.sort(key=..., reverse=True)] is stable: items with equal keys
    keep their order.  A stable sort has one possible output, so insertion
    from the right stands for Python's algorithm. *)
Section sort.
Context {A : Type} (key : A → Q).

Fixpoint insert_desc (x : A) (l : list A) : list A :=
  match l with
  | [] => [x]
  | y :: l' => if Qlt_le_dec (key x) (key y) then y :: insert_desc x l' else x :: l
  end.

Definition sort_desc (l : list A) : list A := foldr insert_desc [] l.
End sort.

(** ** Operations *)
Section operations.
Context `{Datetime} `{Str}.

(** [add_note].  [note_id] is what [uuid.uuid4()] returned, [t_created]
    and [t_updated] the two readings of [datetime.now()].  Nothing in the
    [try] block raises in the model, so the call returns. *)
Definition add_note (st : kb) (note_id : string) (t_created t_updated : Z)
    (title content : value) (tags related_tickers : option (list string))
    : string * kb :=
  let note : item := list_to_map [
    ("id", VStr note_id);
    ("type", VStr "note");
    ("title", title);
    ("content", content);
    ("tags", VList (default [] tags));
    ("related_tickers", VList (default [] related_tickers));
    ("created_at", VStr (isoformat t_created));
    ("updated_at", VStr (isoformat t_updated)) ] in
  let notes := _load_data st NotesFile in
  let notes := notes ++ [note] in
  (note_id, _save_data st NotesFile notes).

Definition add_article (st : kb) (article_id : string) (t_created t_updated : Z)
    (title url summary content : value) (tags related_tickers : option (list string))
    : string * kb :=
  let article : item := list_to_map [
    ("id", VStr article_id);
    ("type", VStr "article");
    ("title", title);
    ("url", url);
    ("summary", summary);
    ("content", content);
    ("tags", VList (default [] tags));
    ("related_tickers", VList (default [] related_tickers));
    ("created_at", VStr (isoformat t_created));
    ("updated_at", VStr (isoformat t_updated)) ] in
  let articles := _load_data st ArticlesFile in
  let articles := articles ++ [article] in
  (article_id, _save_data st ArticlesFile articles).

Definition add_research (st : kb) (research_id : string) (t_created t_updated : Z)
    (title content source : value) (tags related_tickers : option (list string))
    : string * kb :=
  let research : item := list_to_map [
    ("id", VStr research_id);
    ("type", VStr "research");
    ("title", title);
    ("content", content);
    ("source", source);
    ("tags", VList (default [] tags));
    ("related_tickers", VList (default [] related_tickers));
    ("created_at", VStr (isoformat t_created));
    ("updated_at", VStr (isoformat t_updated)) ] in
  let research_items := _load_data st ResearchFile in
  let research_items := research_items ++ [research] in
  (research_id, _save_data st ResearchFile research_items).

(** [_matches_search]; [None] when a [.lower()], [.upper()] or an
    iteration raises.  [if ticker:] and [if tags:] test truthiness: [None],
    the empty string and the empty list skip the filter. *)
Definition _matches_search (it : item) (query : string)
    (ticker : option string) (tags : option (list string)) : option bool :=
  let query_lower := lower query in
  title ← lower_of (get it "title" (VStr ""));
  let title_match := contains query_lower title in
  content ← lower_of (get it "content" (VStr ""));
  let content_match := contains query_lower content in
  summary ← lower_of (get it "summary" (VStr ""));
  let summary_match := contains query_lower summary in
  ticker_match ←
    match ticker return option bool with
    | Some t =>
        if String.eqb t "" then Some true
        else strings_of (get it "related_tickers" (VList [])) ≫= λ ts : list string,
             Some (bool_decide (upper t ∈ upper <$> ts))
    | None => Some true
    end;
  tags_match ←
    match tags return option bool with
    | Some ((_ :: _) as tags) =>
        strings_of (get it "tags" (VList [])) ≫= λ ts : list string,
        let item_tags := lower <$> ts in
        let search_tags := lower <$> tags in
        Some (existsb (λ tag, bool_decide (tag ∈ item_tags)) search_tags)
    | Some [] | None => Some true
    end;
  Some ((title_match || content_match || summary_match) && ticker_match && tags_match).

(** One of the three [for term in query_terms] loops: [weight] is added
    for every term found in [text]. *)
Definition add_matches (weight : Q) (text : string) (query_terms : list string)
    (score : Q) : Q :=
  foldl (λ score term, if contains term text then (score + weight)%Q else score)
        score query_terms.

(** The [try] block of the recency bonus: the age in days, [None] when
    [fromisoformat] raises (not a string, or not a date). *)
Definition days_old (it : item) (now : Z) : option Z :=
  match get it "created_at" (VStr "") with
  | VStr s => created_at ← fromisoformat s; Some ((now - created_at) `div` day)%Z
  | _ => None
  end.

(** [_calculate_relevance]; [now] is the reading of [datetime.now()].
    Scores are floats in the source and exact rationals here: 3.0, 1.0, 1.5
    and 0.5 are binary fractions, which floats add exactly, and 0.2 is added
    once, last, so the float is the rational rounded once at the end. *)
Definition _calculate_relevance (it : item) (query : string) (now : Z) : option Q :=
  let query_terms := split (lower query) in
  let score := 0%Q in
  title ← lower_of (get it "title" (VStr ""));
  let score := add_matches 3.0 title query_terms score in
  content ← lower_of (get it "content" (VStr ""));
  let score := add_matches 1.0 content query_terms score in
  summary ← lower_of (get it "summary" (VStr ""));
  let score := add_matches 1.5 summary query_terms score in
  let score :=
    match days_old it now with
    | Some d =>
        if (d <? 30)%Z then (score + 0.5)%Q
        else if (d <? 90)%Z then (score + 0.2)%Q
        else score
    | None => score
    end in
  Some score.
(** The inner loop of [search_knowledge_base] over one collection.
    [results] is the list built so far; [clock k] is the reading of
    [datetime.now()] for the match that comes after [k] earlier ones.
    [None]: an exception left the loop. *)
Fixpoint search_items (clock : nat → Z) (query : string) (ticker : option string)
    (tags : option (list string)) (collection_name : string)
    (items : list item) (results : list item) : option (list item) :=
  match items with
  | [] => Some results
  | it :: items =>
      m ← _matches_search it query ticker tags;
      if m : bool then
        score ← _calculate_relevance it query (clock (length results));
        let it := <["relevance_score" := VNum score]> it in
        let it := <["collection" := VStr collection_name]> it in
        search_items clock query ticker tags collection_name items (results ++ [it])
      else search_items clock query ticker tags collection_name items results
  end.

(** The collections [search_type] selects, in the order of the three [if]s. *)
Definition collections (search_type : string) : list (string * path) :=
  (if String.eqb search_type "all" || String.eqb search_type "notes"
   then [("notes", NotesFile)] else []) ++
  (if String.eqb search_type "all" || String.eqb search_type "articles"
   then [("articles", ArticlesFile)] else []) ++
  (if String.eqb search_type "all" || String.eqb search_type "research"
   then [("research", ResearchFile)] else []).

(** The outer loop. *)
Fixpoint search_collections (st : kb) (clock : nat → Z) (query : string)
    (ticker : option string) (tags : option (list string))
    (cs : list (string * path)) (results : list item) : option (list item) :=
  match cs with
  | [] => Some results
  | (collection_name, file_path) :: cs =>
      let items := _load_data st file_path in
      results ← search_items clock query ticker tags collection_name items results;
      search_collections st clock query ticker tags cs results
  end.

(** The sort key [x.get('relevance_score', 0)]; the loop has just stored a
    number there. *)
Definition relevance_score (x : item) : Q :=
  match get x "relevance_score" (VNum 0) with
  | VNum q => q
  | _ => 0%Q
  end.

(** [search_knowledge_base]: an exception anywhere in the [try] block gives
    the empty list.  Nothing is saved, so the store is not an output. *)
Definition search_knowledge_base (st : kb) (clock : nat → Z) (query search_type : string)
    (ticker : option string) (tags : option (list string)) : list item :=
  match search_collections st clock query ticker tags (collections search_type) [] with
  | Some results => sort_desc relevance_score results
  | None => []
  end.

(** One [for x in xs: if x['id'] == item_id: return x] loop of [get_item]:
    [None] is the KeyError of an item without ['id'], [Some None] the end of
    the loop. *)
Fixpoint find_id (item_id : string) (items : list item) : option (option item) :=
  match items with
  | [] => Some None
  | it :: items =>
      id ← it !! "id";
      if eq_str id item_id then Some (Some it) else find_id item_id items
  end.

(** The [try] block of [get_item]; [item_type = None] is the default. *)
Definition get_item_try (st : kb) (item_id : string) (item_type : option string)
    : option (option item) :=
  let selected name := bool_decide (item_type = Some name) || bool_decide (item_type = None) in
  found ← (if selected "notes" then find_id item_id (_load_data st NotesFile) else Some None);
  match found with
  | Some note => Some (Some note)
  | None =>
      found ← (if selected "articles" then find_id item_id (_load_data st ArticlesFile)
               else Some None);
      match found with
      | Some article => Some (Some article)
      | None =>
          if selected "research" then find_id item_id (_load_data st ResearchFile)
          else Some None
      end
  end.

(** [get_item]: the [except] clause returns None. *)
Definition get_item (st : kb) (item_id : string) (item_type : option string) : option item :=
  match get_item_try st item_id item_type with
  | Some found => found
  | None => None
  end.

(** The loop [for key, value in updates.items(): if key in item: item[key] = value]. *)
Definition set_fields (updates : gmap string value) (it : item) : item :=
  map_fold (λ key value it, match it !! key with
                            | Some _ => <[key := value]> it
                            | None => it
                            end) it updates.

(** The loop of [update_item] over the loaded items: [None] is a KeyError,
    [Some None] the end of the loop without a match, [Some (Some items')]
    the list after the first item with the id was changed in place. *)
Fixpoint update_first (item_id : string) (updates : gmap string value) (now : Z)
    (items : list item) : option (option (list item)) :=
  match items with
  | [] => Some None
  | it :: items =>
      id ← it !! "id";
      if eq_str id item_id then
        let it := set_fields updates it in
        let it := <["updated_at" := VStr (isoformat now)]> it in
        Some (Some (it :: items))
      else
        update_first item_id updates now items ≫= λ changed : option (list item),
        Some ((it ::.) <$> changed)
  end.

(** [update_item]; [now] is the reading of [datetime.now()].  The [except]
    clause returns False without saving. *)
Definition update_item (st : kb) (item_id : string) (updates : gmap string value)
    (item_type : string) (now : Z) : bool * kb :=
  match file_path item_type with
  | None => (false, st)
  | Some file_path =>
      let items := _load_data st file_path in
      match update_first item_id updates now items with
      | Some (Some items) => (true, _save_data st file_path items)
      | Some None => (false, st)
      | None => (false, st)
      end
  end.

(** The comprehension [[item for item in items if item['id'] != item_id]];
    [None] is a KeyError. *)
Fixpoint without_id (item_id : string) (items : list item) : option (list item) :=
  match items with
  | [] => Some []
  | it :: items =>
      id ← it !! "id";
      kept ← without_id item_id items;
      Some (if eq_str id item_id then kept else it :: kept)
  end.

(** [delete_item]. *)
Definition delete_item (st : kb) (item_id : string) (item_type : string) : bool * kb :=
  match file_path item_type with
  | None => (false, st)
  | Some file_path =>
      let items := _load_data st file_path in
      let original_count := length items in
      match without_id item_id items with
      | Some items =>
          if (length items <? original_count)%nat
          then (true, _save_data st file_path items)
          else (false, st)
      | None => (false, st)
      end
  end.

(** [get_all_items]. *)
Definition get_all_items (st : kb) (item_type : string) : list item :=
  if String.eqb item_type "notes" then _load_data st NotesFile
  else if String.eqb item_type "articles" then _load_data st ArticlesFile
  else if String.eqb item_type "research" then _load_data st ResearchFile
  else if String.eqb item_type "all" then
    let all_items := [] in
    let all_items := all_items ++ _load_data st NotesFile in
    let all_items := all_items ++ _load_data st ArticlesFile in
    let all_items := all_items ++ _load_data st ResearchFile in
    all_items
  else [].

(** ** Histories

    The calls that write the store, with the values the environment supplied
    to each: the fresh id and the clock readings. *)
Inductive call : Type :=
  | AddNote (note_id : string) (t_created t_updated : Z) (title content : value)
      (tags related_tickers : option (list string))
  | AddArticle (article_id : string) (t_created t_updated : Z)
      (title url summary content : value) (tags related_tickers : option (list string))
  | AddResearch (research_id : string) (t_created t_updated : Z)
      (title content source : value) (tags related_tickers : option (list string))
  | UpdateItem (item_id : string) (updates : gmap string value) (item_type : string) (now : Z)
  | DeleteItem (item_id item_type : string).

Definition step (st : kb) (c : call) : kb :=
  match c with
  | AddNote i t1 t2 title content tags tickers =>
      (add_note st i t1 t2 title content tags tickers).2
  | AddArticle i t1 t2 title url summary content tags tickers =>
      (add_article st i t1 t2 title url summary content tags tickers).2
  | AddResearch i t1 t2 title content source tags tickers =>
      (add_research st i t1 t2 title content source tags tickers).2
  | UpdateItem i updates item_type now => (update_item st i updates item_type now).2
  | DeleteItem i item_type => (delete_item st i item_type).2
  end.

Definition run (st : kb) (cs : list call) : kb := foldl step st cs.

(** The clock readings of a call, in the order they are taken. *)
Definition readings (c : call) : list Z :=
  match c with
  | AddNote _ t1 t2 _ _ _ _ => [t1; t2]
  | AddArticle _ t1 t2 _ _ _ _ _ _ => [t1; t2]
  | AddResearch _ t1 t2 _ _ _ _ _ => [t1; t2]
  | UpdateItem _ _ _ now => [now]
  | DeleteItem _ _ => []
  end.
End operations.

(** [create_knowledge_base] on a directory without files. *)
Definition create_knowledge_base : kb := _init_storage (KB Missing Missing Missing).

(** ** The callers in [app.py]

    The Streamlit script drives the knowledge base from widget values,
    which are strings.  Embedded here are the blocks that compute with the
    knowledge base: the two sidebar forms of [main] and, from
    [display_knowledge_base], the filters and the Delete button. *)

Section callers.
Context `{Datetime} `{Str}.

(** The body of [if st.button("Save Note"):] in [main]: the message shown
    and the store afterwards.  [add_note] does not raise in the model, so
    the [except] clause is not reached. *)
Definition save_note_clicked (st : kb) (note_id : string) (t_created t_updated : Z)
    (note_title note_content note_tags note_tickers : string) : string * kb :=
  if negb (String.eqb note_title "") && negb (String.eqb note_content "") then
    let tags :=
      if negb (String.eqb note_tags "") then strip <$> split_on "," note_tags else [] in
    let tickers :=
      if negb (String.eqb note_tickers "")
      then (λ ticker, upper (strip ticker)) <$> split_on "," note_tickers else [] in
    let st := (add_note st note_id t_created t_updated (VStr note_title) (VStr note_content)
                 (Some tags) (Some tickers)).2 in
    ("Note saved successfully!", st)
  else ("Please fill in title and content", st).

(** The body of [if st.button("Save Article"):]; the call leaves
    [content] to its default, None. *)
Definition save_article_clicked (st : kb) (article_id : string) (t_created t_updated : Z)
    (article_title article_url article_summary article_tags article_tickers : string)
    : string * kb :=
  if negb (String.eqb article_title "") && negb (String.eqb article_url "") then
    let tags :=
      if negb (String.eqb article_tags "") then strip <$> split_on "," article_tags
      else [] in
    let tickers :=
      if negb (String.eqb article_tickers "")
      then (λ ticker, upper (strip ticker)) <$> split_on "," article_tickers else [] in
    let st := (add_article st article_id t_created t_updated (VStr article_title)
                 (VStr article_url) (VStr article_summary) VNone
                 (Some tags) (Some tickers)).2 in
    ("Article saved successfully!", st)
  else ("Please fill in title and URL", st).

(** A list comprehension [[item for item in items if cond(item)]] whose
    condition may raise. *)
Fixpoint filter_try (cond : item → option bool) (items : list item) : option (list item) :=
  match items with
  | [] => Some []
  | it :: items =>
      keep ← cond it;
      filter_try cond items ≫= λ kept : list item,
      Some (if keep : bool then it :: kept else kept)
  end.

(** [type_map[filter_type]]; [None] is the KeyError. *)
Definition type_map (filter_type : string) : option string :=
  if String.eqb filter_type "Notes" then Some "notes"
  else if String.eqb filter_type "Articles" then Some "articles"
  else if String.eqb filter_type "Research" then Some "research"
  else None.

(** The block "Apply filters" of [display_knowledge_base].  Nothing
    catches an exception here: [None] is the exception leaving the
    function. *)
Definition apply_filters (all_items : list item)
    (filter_type filter_ticker filter_tags : string) : option (list item) :=
  let filtered_items := all_items in
  filtered_items ←
    (if negb (String.eqb filter_type "All")
     then filter_try (λ it, name ← type_map filter_type;
                            Some (eq_str (get it "collection" VNone) name))
            filtered_items
     else Some filtered_items);
  filtered_items ←
    (if negb (String.eqb filter_ticker "")
     then filter_try (λ it, strings_of (get it "related_tickers" (VList [])) ≫=
                            λ ts : list string,
                            Some (bool_decide (upper filter_ticker ∈ upper <$> ts)))
            filtered_items
     else Some filtered_items);
  if negb (String.eqb filter_tags "")
  then let filter_tag_list := (λ tag, lower (strip tag)) <$> split_on "," filter_tags in
       filter_try (λ it, strings_of (get it "tags" (VList [])) ≫= λ ts : list string,
                         Some (existsb (λ tag, bool_decide (lower tag ∈ filter_tag_list)) ts))
         filtered_items
  else Some filtered_items.

(** The Delete button of a displayed item: the message shown and the store
    afterwards.  The message does not depend on what [delete_item]
    returned.  [None]: the item has no ['id'] (the KeyError is raised when
    the key of the button is built), or an id that is not a string, which
    the embedding of [delete_item] does not take.  A ['collection'] that is
    not a string is no name of a collection, and nothing is deleted. *)
Definition delete_clicked (st : kb) (it : item) : option (string * kb) :=
  id ← it !! "id";
  match id with
  | VStr item_id =>
      match get it "collection" (VStr "notes") with
      | VStr item_type => Some ("Item deleted!", (delete_item st item_id item_type).2)
      | _ => Some ("Item deleted!", st)
      end
  | _ => None
  end.
End callers.

(** ** A clock to compute with

    An instance of the interface for the examples: an instant is written as
    its decimal number of microseconds. *)
#[global, refine] Instance decimal_clock : Datetime := {|
  isoformat t := NilZero.string_of_int (Z.to_int t);
  fromisoformat s := Z.of_int <$> NilZero.int_of_string s;
  fromisoformat_isoformat := _;
  fromisoformat_empty := _
|}.
Proof.
  - intros t. rewrite NilZero.isi.
    + simpl. f_equal. apply DecimalZ.of_to.
    + destruct t; simpl; intros [= Hnil]; by apply Unsigned.to_uint_nonnil in Hnil.
    + destruct t; simpl; intros [= Hnil]; by apply Unsigned.to_uint_nonnil in Hnil.
  - reflexivity.
Defined.

(** ** Notions used by the statements *)

(** [st'] is [st] with [r] appended to the collection at [p], and nothing
    else changed. *)
Definition appended (st st' : kb) (p : path) (r : item) : Prop :=
  read st' p = Data (_load_data st p ++ [r]) ∧ ∀ q, q ≠ p → read st' q = read st q.

(** The item carries the id [item_id]. *)
Definition has_id (item_id : string) (it : item) : Prop :=
  it !! "id" = Some (VStr item_id).

#[global] Instance has_id_dec item_id it : Decision (has_id item_id it).
Proof. unfold has_id. apply _. Defined.

(** Every item has the key ['id'], so [x['id']] does not raise. *)
Definition keyed (items : list item) : Prop :=
  Forall (λ it : item, is_Some (it !! "id")) items.

(** The text under a key, the empty string when the key is absent. *)
Definition text (it : item) (k : string) : string :=
  match it !! k with Some (VStr s) => s | _ => "" end.

(** The list under a key, empty when the key is absent. *)
Definition strings (it : item) (k : string) : list string :=
  match it !! k with Some (VList l) => l | _ => [] end.

(** Case-insensitive comparison as the code makes it: the query and the
    tags are compared in lower case, the ticker in upper case. *)
Definition caseless_eq `{Str} (s t : string) : Prop := lower s = lower t.

Definition caseless_substring `{Str} (s t : string) : Prop :=
  ∃ pre post, lower t = pre +:+ lower s +:+ post.

Definition same_upper `{Str} (s t : string) : Prop := upper s = upper t.

(** The matching predicate of the spec, with the two filters applying to a
    non-empty ticker and a non-empty tag list. *)
Definition query_found `{Str} (it : item) (query : string) : Prop :=
  caseless_substring query (text it "title")
  ∨ caseless_substring query (text it "content")
  ∨ caseless_substring query (text it "summary").

Definition ticker_found `{Str} (it : item) (ticker : string) : Prop :=
  ∃ t, t ∈ strings it "related_tickers" ∧ same_upper ticker t.

Definition tag_found `{Str} (it : item) (tags : list string) : Prop :=
  ∃ tag t, tag ∈ tags ∧ t ∈ strings it "tags" ∧ caseless_eq tag t.

Definition matches `{Str} (it : item) (query : string) (ticker : option string)
    (tags : option (list string)) : Prop :=
  query_found it query
  ∧ (∀ t, ticker = Some t → t ≠ "" → ticker_found it t)
  ∧ (∀ l, tags = Some l → l ≠ [] → tag_found it l).

(** The fields the search reads have the types the add operations are
    declared with: text fields are strings when present, the two list
    fields are lists. *)
Definition searchable (it : item) : Prop :=
  (∀ k, k ∈ ["title"; "content"; "summary"] →
        it !! k = None ∨ ∃ s, it !! k = Some (VStr s))
  ∧ (∀ k, k ∈ ["related_tickers"; "tags"] →
          it !! k = None ∨ ∃ l, it !! k = Some (VList l)).

(** The items of the collections a search visits, each with the name of its
    collection, in the order of the visit. *)
Definition visited_in (st : kb) (cs : list (string * path)) : list (string * item) :=
  cs ≫= λ c, (c.1,.) <$> _load_data st c.2.

Definition visited (st : kb) (search_type : string) : list (string * item) :=
  visited_in st (collections search_type).

(** The three collections, in the fixed order. *)
Definition all_collections : list (string * path) :=
  [("notes", NotesFile); ("articles", ArticlesFile); ("research", ResearchFile)].

(** What the search stores in a result: the score and the collection. *)
Definition annotated (it : item) (name : string) (score : Q) : item :=
  <["collection" := VStr name]> (<["relevance_score" := VNum score]> it).

(** [x] may come before [y] in a list sorted by decreasing key. *)
Definition before {A : Type} (key : A → Q) (x y : A) : Prop := (key y <= key x)%Q.

(** [_matches_search] returned True on the item of the pair. *)
Definition hit `{Str} (query : string) (ticker : option string) (tags : option (list string))
    (m : string * item) : Prop :=
  _matches_search m.2 query ticker tags = Some true.

#[global] Instance hit_dec `{Str} query ticker tags m : Decision (hit query ticker tags m).
Proof. unfold hit. apply _. Defined.

(** The results [xs] are the items [ms], one for one and in order, each
    with a score and its collection stored in it. *)
Definition found_from (xs : list item) (ms : list (string * item)) : Prop :=
  Forall2 (λ x m, ∃ score, x = annotated m.2 m.1 score) xs ms.

(** The instant under [created_at], when it is a string that parses. *)
Definition created_at `{Datetime} (it : item) : option Z :=
  match it !! "created_at" with
  | Some (VStr s) => fromisoformat s
  | _ => None
  end.

(** The recency bonus of the spec, on the age in microseconds. *)
Definition recency_bonus `{Datetime} (it : item) (now : Z) : Q :=
  match created_at it with
  | Some created =>
      if decide (now - created < 30 * day)%Z then 0.5%Q
      else if decide (now - created < 90 * day)%Z then 0.2%Q
      else 0%Q
  | None => 0%Q
  end.

Definition flag (weight : Q) (present : bool) : Q := if present then weight else 0%Q.

(** What one query term contributes. *)
Definition term_score `{Str} (it : item) (term : string) : Q :=
  (flag 3.0 (contains term (lower (text it "title")))
   + flag 1.0 (contains term (lower (text it "content")))
   + flag 1.5 (contains term (lower (text it "summary"))))%Q.

Definition sum_over (f : string → Q) (terms : list string) : Q :=
  foldr (λ term acc, (f term + acc)%Q) 0%Q terms.

(** The instant under [updated_at], when it is a string that parses. *)
Definition updated_at `{Datetime} (it : item) : option Z :=
  match it !! "updated_at" with
  | Some (VStr s) => fromisoformat s
  | _ => None
  end.

(** The invariant of the data model: both timestamps parse and
    [created_at] is not after [updated_at]. *)
Definition timestamps_ordered `{Datetime} (it : item) : Prop :=
  ∃ created updated,
    created_at it = Some created ∧ updated_at it = Some updated ∧ (created ≤ updated)%Z.

(** The same, with [updated_at] no later than the instant [hi]. *)
Definition stamped_by `{Datetime} (hi : Z) (it : item) : Prop :=
  ∃ created updated,
    created_at it = Some created ∧ updated_at it = Some updated
    ∧ (created ≤ updated)%Z ∧ (updated ≤ hi)%Z.

Definition kb_stamped_by `{Datetime} (hi : Z) (st : kb) : Prop :=
  ∀ p it, it ∈ _load_data st p → stamped_by hi it.

(** The call is not an update that names [created_at]. *)
Definition keeps_created_at (c : call) : Prop :=
  match c with
  | UpdateItem _ updates _ _ => updates !! "created_at" = None
  | _ => True
  end.

(** No character of the string is white space. *)
Definition no_space (w : string) : Prop :=
  Forall (λ c, py_space c = false) (list_ascii_of_string w).

(** The ids of the items, in order. *)
Definition ids (items : list item) : list (option value) := (.!! "id") <$> items.

(** What an update makes of the item it changes. *)
Definition updated `{Datetime} (updates : gmap string value) (now : Z) (it : item) : item :=
  <["updated_at" := VStr (isoformat now)]> (set_fields updates it).

(** The call is not an update that names the field [k]. *)
Definition keeps (k : string) (c : call) : Prop :=
  match c with
  | UpdateItem _ updates _ _ => updates !! k = None
  | _ => True
  end.

(** The ids the add calls were given. *)
Definition added_ids (c : call) : list string :=
  match c with
  | AddNote i _ _ _ _ _ _ => [i]
  | AddArticle i _ _ _ _ _ _ _ _ => [i]
  | AddResearch i _ _ _ _ _ _ _ => [i]
  | UpdateItem _ _ _ _ | DeleteItem _ _ => []
  end.

(** The keys of the dict each add operation builds. *)
Definition schema (p : path) : gset string :=
  match p with
  | NotesFile =>
      list_to_set ["id"; "type"; "title"; "content"; "tags"; "related_tickers";
                   "created_at"; "updated_at"]
  | ArticlesFile =>
      list_to_set ["id"; "type"; "title"; "url"; "summary"; "content"; "tags";
                   "related_tickers"; "created_at"; "updated_at"]
  | ResearchFile =>
      list_to_set ["id"; "type"; "title"; "content"; "source"; "tags";
                   "related_tickers"; "created_at"; "updated_at"]
  end.

(** The ['type'] each add operation writes. *)
Definition kind_name (p : path) : string :=
  match p with
  | NotesFile => "note"
  | ArticlesFile => "article"
  | ResearchFile => "research"
  end.

(** A store with three empty collections. *)
Definition empty_kb : kb := KB (Data []) (Data []) (Data []).

(** The items have distinct ids, all of them strings from [seen]. *)
Definition ids_among (seen : list string) (items : list item) : Prop :=
  NoDup (ids items) ∧ Forall (λ v, ∃ i, v = Some (VStr i) ∧ i ∈ seen) (ids items).

(** The number of terms, as a score. *)
Definition count (terms : list string) : Q := inject_Z (Z.of_nat (length terms)).

(** [x] is an item on which the matching returned True, carrying the score
    computed for it at one of the readings of the clock. *)
Definition scored_hit `{Datetime} `{Str} (clock : nat → Z) (query : string)
    (ticker : option string) (tags : option (list string)) (x : item) : Prop :=
  ∃ it name k score,
    x = annotated it name score
    ∧ _matches_search it query ticker tags = Some true
    ∧ _calculate_relevance it query (clock k) = Some score.

(** The results [xs] are the items [ms], one for one and in order, each
    carrying the score [_calculate_relevance] returned for it at one of the
    readings of the clock. *)
Definition scored_from `{Datetime} `{Str} (clock : nat → Z) (query : string)
    (xs : list item) (ms : list (string * item)) : Prop :=
  Forall2 (λ x m, ∃ k score, x = annotated m.2 m.1 score
                             ∧ _calculate_relevance m.2 query (clock k) = Some score)
    xs ms.

(** The file an add call appends to. *)
Definition target (c : call) : option path :=
  match c with
  | AddNote _ _ _ _ _ _ _ => Some NotesFile
  | AddArticle _ _ _ _ _ _ _ _ _ => Some ArticlesFile
  | AddResearch _ _ _ _ _ _ _ _ => Some ResearchFile
  | UpdateItem _ _ _ _ | DeleteItem _ _ => None
  end.

(** What was typed in a field for a comma-separated list, cut at the
    commas; nothing typed gives no piece. *)
Definition comma_list (typed : string) : list string :=
  if String.eqb typed "" then [] else split_on "," typed.

(** ** Strings to compute with

    The functions on ASCII text are an instance of the interface, for the
    examples, which are in ASCII. *)
#[global, refine] Instance ascii_str : Str := {|
  lower := ascii_lower;
  upper := ascii_upper;
  split := ascii_split;
  strip := ascii_strip;
  chars := ascii_chars;
  lower_ascii := λ _ _, eq_refl;
  upper_ascii := λ _ _, eq_refl;
  split_ascii := λ _ _, eq_refl;
  strip_ascii := λ _ _, eq_refl;
  chars_ascii := λ _ _, eq_refl;
  split_pieces := _
|}.
Proof.
  assert (Hassoc : ∀ x y z : string, (x +:+ y) +:+ z = x +:+ (y +:+ z)).
  { intros x y z. induction x as [|a x IH]; [done|]. exact (f_equal (String a) IH). }
  assert (Hfrom : ∀ s word,
    Forall (λ term, ∃ pre post, word +:+ s = pre +:+ term +:+ post) (split_from word s)).
  { induction s as [|c s IH]; intros word; simpl.
    - destruct (String.eqb word ""); repeat constructor. by exists "", "".
    - destruct (py_space c).
      + apply Forall_app. split.
        * destruct (String.eqb word ""); repeat constructor. by exists "", (String c s).
        * eapply Forall_impl; [apply (IH "")|]. intros term (pre & post & Hp).
          exists (word +:+ String c pre), post.
          change ("" +:+ s) with s in Hp. rewrite Hp. by rewrite Hassoc.
      + eapply Forall_impl; [apply (IH (word +:+ String c ""))|].
        intros term (pre & post & Hp). exists pre, post.
        rewrite <-Hp. by rewrite Hassoc. }
  intros s. apply (Hfrom s "").
Defined.

(** ** Sample stores *)

(** The note of the scoring example, as [add_note] stores it at the
    instant [t]. *)
Definition apple_note `{Datetime} (t : Z) : item := list_to_map [
  ("id", VStr "n1"); ("type", VStr "note"); ("title", VStr "Apple earnings beat");
  ("content", VStr "iPhone sales up"); ("tags", VList ["earnings"]);
  ("related_tickers", VList ["AAPL"]);
  ("created_at", VStr (isoformat t)); ("updated_at", VStr (isoformat t)) ].

Definition sample_note : item := apple_note (9 * day).

Definition sample_kb : kb := KB (Data [sample_note]) (Data []) (Data []).

(** The scenario of [test_platform.py]: a note, then an article added
    without content, which [add_article] stores as None. *)
Definition test_kb : kb :=
  let st := create_knowledge_base in
  let st := (add_note st "n1" 0 1 (VStr "Test Note")
               (VStr "This is a test note for testing purposes")
               (Some ["test"; "demo"]) (Some ["TEST"])).2 in
  (add_article st "a1" 2 3 (VStr "Test Article") (VStr "https://example.com/test")
     (VStr "Test article summary") VNone (Some ["test"; "article"]) (Some ["TEST"])).2.

(** Two notes that both match "apple": "b", stored first and created at
    day 0, and "a", created at day 31. *)
Definition aging_kb : kb :=
  let st := create_knowledge_base in
  let st := (add_note st "b" 0 0 (VStr "Apple supplier") (VStr "") None None).2 in
  (add_note st "a" (31 * day) (31 * day) (VStr "Apple earnings") (VStr "") None None).2.

(** A store whose notes file cannot be read. *)
Definition corrupt_kb : kb := KB Unreadable (Data []) (Data []).

(** A note is added at day 9 and updated at day 10 with a [created_at] of
    day 100. *)
Definition backdating : list call :=
  [ AddNote "n1" (9 * day) (9 * day) (VStr "Apple earnings beat") (VStr "iPhone sales up")
      None None;
    UpdateItem "n1" {["created_at" := VStr (isoformat (100 * day))]} "notes" (10 * day) ].

(** A note is added at day 9 and its tags are replaced at day 10. *)
Definition tagging : list call :=
  [ AddNote "n1" (9 * day) (9 * day) (VStr "Apple earnings beat") (VStr "iPhone sales up")
      None None;
    UpdateItem "n1" {["tags" := VList ["x"]]} "notes" (10 * day) ].

(** One item of each kind, the article added without content. *)
Definition one_of_each : list call :=
  [ AddNote "n1" 0 1 (VStr "Test Note") (VStr "This is a test note") None (Some ["TEST"]);
    AddArticle "a1" 2 3 (VStr "Test Article") (VStr "https://example.com/test")
      (VStr "Test article summary") VNone None (Some ["TEST"]);
    AddResearch "r1" 4 5 (VStr "Test Research") (VStr "Findings") VNone None None ].

(** The article of [one_of_each], as [get_all_items] returns it. *)
Definition listed_article : item := list_to_map [
  ("id", VStr "a1"); ("type", VStr "article"); ("title", VStr "Test Article");
  ("url", VStr "https://example.com/test"); ("summary", VStr "Test article summary");
  ("content", VNone); ("tags", VList []); ("related_tickers", VList ["TEST"]);
  ("created_at", VStr (isoformat 2)); ("updated_at", VStr (isoformat 3)) ].

(** * Properties *)

(** ** Strings *)

Lemma starts_with_app (s t : string) :
  starts_with s t = true ↔ ∃ post, t = s +:+ post.
Proof.
  revert t. induction s as [|a s IH]; intros t; simpl.
  - split; [intros _; by exists t | done].
  - destruct t as [|b t].
    + split; [done | intros [post Hp]; discriminate].
    + destruct (Ascii.eqb_spec a b) as [->|Hab].
      * rewrite IH. split; intros [post Hp]; exists post.
        -- by rewrite Hp.
        -- by injection Hp.
      * split; [done | intros [post Hp]; injection Hp; congruence].
Qed.

(** [contains] decides the substring relation. *)
Lemma contains_substring (s t : string) :
  contains s t = true ↔ ∃ pre post, t = pre +:+ s +:+ post.
Proof.
  induction t as [|b t IH]; simpl; rewrite orb_true_iff, starts_with_app.
  - split.
    + intros [[post Hp]|?]; [|done]. by exists "", post.
    + intros (pre & post & Hp). left. destruct pre; [by exists post|discriminate].
  - rewrite IH. split.
    + intros [[post Hp]|(pre & post & Hp)].
      * by exists "", post.
      * exists (String b pre), post. by rewrite Hp.
    + intros (pre & post & Hp). destruct pre as [|c pre].
      * left. by exists post.
      * right. exists pre, post. by injection Hp.
Qed.

Example split_ex : ascii_split "  apple   earnings beat " = ["apple"; "earnings"; "beat"].
Proof. reflexivity. Qed.

Example lower_ex : ascii_lower "Apple Q4" = "apple q4" ∧ ascii_upper "aapl" = "AAPL".
Proof. split; reflexivity. Qed.

Example contains_ex : contains "le q" "apple q4" = true ∧ contains "x" "apple" = false.
Proof. split; reflexivity. Qed.

Lemma no_space_app (w : string) (c : ascii) :
  no_space w → py_space c = false → no_space (w +:+ String c "").
Proof.
  unfold no_space. intros Hw Hc. induction w as [|a w IH]; simpl.
  - by repeat constructor.
  - inversion_clear Hw. constructor; [done | by apply IH].
Qed.

Lemma app_empty_r (w : string) : w +:+ "" = w.
Proof. induction w as [|a w IH]; [done|]. exact (f_equal (String a) IH). Qed.

Lemma app_snoc (w s : string) (c : ascii) : (w +:+ String c "") +:+ s = w +:+ String c s.
Proof. induction w as [|a w IH]; [done|]. exact (f_equal (String a) IH). Qed.

(** The terms [ascii_split] returns are not empty and contain no white
    space. *)
Lemma split_from_terms (word s : string) :
  no_space word → Forall (λ w, w ≠ "" ∧ no_space w) (split_from word s).
Proof.
  revert word. induction s as [|c s IH]; intros word Hw; simpl.
  - destruct (String.eqb_spec word ""); by repeat constructor.
  - destruct (py_space c) eqn:Hc.
    + apply Forall_app. split; [|apply IH; constructor].
      destruct (String.eqb_spec word ""); by repeat constructor.
    + apply IH. by apply no_space_app.
Qed.

Lemma split_terms (s : string) : Forall (λ w, w ≠ "" ∧ no_space w) (ascii_split s).
Proof. apply split_from_terms. constructor. Qed.

(** A string without white space is its own single term. *)
Lemma split_from_word (word s : string) :
  no_space s → word +:+ s ≠ "" → split_from word s = [word +:+ s].
Proof.
  revert word. induction s as [|c s IH]; intros word Hs Hne; simpl.
  - rewrite app_empty_r in *. by destruct (String.eqb_spec word "").
  - inversion_clear Hs as [|? ? Hc Hs']. rewrite Hc.
    rewrite IH; [by rewrite app_snoc | done | by rewrite app_snoc].
Qed.

(** ** Adding *)

Lemma lookup_eq_str (it : item) (item_id : string) :
  (∃ v, it !! "id" = Some v ∧ eq_str v item_id = true) ↔ has_id item_id it.
Proof.
  unfold has_id. split.
  - intros (v & Hv & He). destruct v as [|s| |]; try done.
    apply String.eqb_eq in He. by rewrite Hv, He.
  - intros Hid. exists (VStr item_id). split; [done|]. apply String.eqb_refl.
Qed.

(** C1, as the code has it: no add operation validates.  Whatever the title,
    content, url and the other fields are (empty, or None), the call returns
    the fresh id and appends one record carrying these fields to the end of
    its collection, leaving the other two collections alone. *)
Theorem add_stores_any_fields `{Datetime} (st : kb) (i : string) (t1 t2 : Z)
    (title content url summary source : value) (tags tickers : option (list string)) :
  (∃ st' r, add_note st i t1 t2 title content tags tickers = (i, st')
        ∧ appended st st' NotesFile r
        ∧ r !! "id" = Some (VStr i) ∧ r !! "type" = Some (VStr "note")
        ∧ r !! "title" = Some title ∧ r !! "content" = Some content) ∧
  (∃ st' r, add_article st i t1 t2 title url summary content tags tickers = (i, st')
        ∧ appended st st' ArticlesFile r
        ∧ r !! "id" = Some (VStr i) ∧ r !! "type" = Some (VStr "article")
        ∧ r !! "title" = Some title ∧ r !! "url" = Some url
        ∧ r !! "summary" = Some summary ∧ r !! "content" = Some content) ∧
  (∃ st' r, add_research st i t1 t2 title content source tags tickers = (i, st')
        ∧ appended st st' ResearchFile r
        ∧ r !! "id" = Some (VStr i) ∧ r !! "type" = Some (VStr "research")
        ∧ r !! "title" = Some title ∧ r !! "content" = Some content
        ∧ r !! "source" = Some source).
Proof.
  repeat split; do 2 eexists; (split; [reflexivity|]);
    (split; [split; [reflexivity | by intros [] ?] | repeat split]).
Qed.

(** C1 as the spec states it fails: a note with an empty title and no
    content, an article with no url and a research entry with an empty title
    are all created and stored. *)
Lemma add_accepts_empty_title :
  (∃ r, get_all_items (add_note create_knowledge_base "n1" 0 0 (VStr "") VNone None None).2 "all" = [r]
        ∧ r !! "title" = Some (VStr "") ∧ r !! "content" = Some VNone) ∧
  (∃ r, get_all_items (add_article create_knowledge_base "a1" 0 0 (VStr "T") VNone VNone VNone
                         None None).2 "all" = [r]
        ∧ r !! "url" = Some VNone) ∧
  (∃ r, get_all_items (add_research create_knowledge_base "r1" 0 0 (VStr "") (VStr "x") VNone
                         None None).2 "all" = [r]
        ∧ r !! "title" = Some (VStr "")).
Proof. repeat split; eexists; repeat split. Qed.

(** ** Updating *)

(** What the loop over [updates] leaves under each key: a key of the item
    takes the new value when [updates] has one, and no key is added. *)
Lemma set_fields_lookup (updates : gmap string value) (it : item) (k : string) :
  set_fields updates it !! k =
  match it !! k with
  | Some old => Some (default old (updates !! k))
  | None => None
  end.
Proof.
  unfold set_fields. revert k.
  apply (map_fold_weak_ind (λ (r : item) (m : gmap string value), ∀ k,
    r !! k = match it !! k with
             | Some old => Some (default old (m !! k))
             | None => None
             end)).
  - intros k. rewrite lookup_empty. by destruct (it !! k).
  - intros i x m r Hi IH k.
    destruct (decide (i = k)) as [->|Hne].
    + rewrite lookup_insert_eq. specialize (IH k). rewrite Hi in IH.
      destruct (r !! k) eqn:Hr.
      * rewrite lookup_insert_eq. by destruct (it !! k).
      * rewrite Hr. by destruct (it !! k).
    + rewrite (lookup_insert_ne m i k) by done.
      destruct (r !! i); [rewrite lookup_insert_ne by done|]; apply IH.
Qed.

Section update.
Context `{Datetime} `{Str}.

(** The first item with the id is the one the loop changes. *)
Lemma update_first_found (item_id : string) (updates : gmap string value) (now : Z)
    (pre post : list item) (it : item) :
  keyed pre → Forall (λ x, ¬ has_id item_id x) pre → has_id item_id it →
  update_first item_id updates now (pre ++ it :: post) =
  Some (Some (pre ++ <["updated_at" := VStr (isoformat now)]> (set_fields updates it) :: post)).
Proof.
  intros Hk Hpre Hit. induction pre as [|x pre IH]; simpl.
  - apply lookup_eq_str in Hit as (v & Hv & He). by rewrite Hv; simpl; rewrite He.
  - inversion_clear Hk as [|? ? [v Hv] Hk']. inversion_clear Hpre as [|? ? Hx Hpre'].
    rewrite Hv. simpl. destruct (eq_str v item_id) eqn:He.
    + exfalso. apply Hx, lookup_eq_str. eauto.
    + rewrite (IH Hk' Hpre'). done.
Qed.

(** Without an item with the id the loop ends, or stops on a KeyError; in
    both cases nothing is returned to save. *)
Lemma update_first_not_found (item_id : string) (updates : gmap string value) (now : Z)
    (items : list item) :
  Forall (λ x, ¬ has_id item_id x) items →
  update_first item_id updates now items = Some None ∨
  update_first item_id updates now items = None.
Proof.
  induction 1 as [|x items Hx _ IH]; simpl; [by left|].
  destruct (x !! "id") as [v|] eqn:Hv; simpl; [|by right].
  destruct (eq_str v item_id) eqn:He.
  - exfalso. apply Hx, lookup_eq_str. eauto.
  - destruct IH as [->| ->]; [by left | by right].
Qed.
End update.

(** C2, as the code has it.  When the collection holds an item with the id
    (and the items before it have ids), [update_item] returns True and saves
    the collection with that one item changed: [updated_at] is the new
    reading; a field named in [updates] that the item already has takes the
    new value; a field the item does not have is not added; a field not
    named in [updates] is unchanged.  [id], [type] and [created_at] are
    fields like the others: unchanged when [updates] does not name them. *)
Theorem update_item_frame `{Datetime} (st : kb) (item_id : string)
    (updates : gmap string value) (item_type : string) (now : Z)
    (p : path) (pre post : list item) (it : item) :
  file_path item_type = Some p →
  _load_data st p = pre ++ it :: post →
  keyed pre → Forall (λ x, ¬ has_id item_id x) pre → has_id item_id it →
  ∃ it',
    update_item st item_id updates item_type now
      = (true, write st p (Data (pre ++ it' :: post)))
    ∧ it' !! "updated_at" = Some (VStr (isoformat now))
    ∧ (∀ k v, k ≠ "updated_at" → is_Some (it !! k) → updates !! k = Some v →
         it' !! k = Some v)
    ∧ (∀ k, k ≠ "updated_at" → it !! k = None → it' !! k = None)
    ∧ (∀ k, k ≠ "updated_at" → updates !! k = None → it' !! k = it !! k).
Proof.
  intros Hp Hload Hk Hpre Hit.
  exists (<["updated_at" := VStr (isoformat now)]> (set_fields updates it)).
  split; [|split; [|split; [|split]]].
  - unfold update_item. rewrite Hp, Hload.
    by rewrite (update_first_found _ _ _ _ _ _ Hk Hpre Hit).
  - apply lookup_insert_eq.
  - intros k v Hne [old Hold] Hu.
    rewrite lookup_insert_ne by done. by rewrite set_fields_lookup, Hold, Hu.
  - intros k Hne Hnone.
    rewrite lookup_insert_ne by done. by rewrite set_fields_lookup, Hnone.
  - intros k Hne Hu.
    rewrite lookup_insert_ne by done. rewrite set_fields_lookup, Hu.
    by destruct (it !! k).
Qed.

Lemma update_item_frame_witness :
  ∃ it',
    update_item sample_kb "n1" {["tags" := VList ["x"]]} "notes" (10 * day)
      = (true, write sample_kb NotesFile (Data ([] ++ it' :: [])))
    ∧ it' !! "updated_at" = Some (VStr (isoformat (10 * day)))
    ∧ (∀ k v, k ≠ "updated_at" → is_Some (sample_note !! k) →
         ({["tags" := VList ["x"]]} : gmap string value) !! k = Some v → it' !! k = Some v)
    ∧ (∀ k, k ≠ "updated_at" → sample_note !! k = None → it' !! k = None)
    ∧ (∀ k, k ≠ "updated_at" → ({["tags" := VList ["x"]]} : gmap string value) !! k = None →
         it' !! k = sample_note !! k).
Proof.
  apply (update_item_frame sample_kb "n1" {["tags" := VList ["x"]]} "notes" (10 * day)
           NotesFile [] [] sample_note).
  - reflexivity.
  - reflexivity.
  - constructor.
  - constructor.
  - reflexivity.
Defined.

(** C2 as the spec states it fails: an update that names [id], [type] and
    [created_at] overwrites all three. *)
Lemma update_overwrites_id :
  ∃ it',
    update_item sample_kb "n1"
      (list_to_map [("id", VStr "n2"); ("type", VStr "article"); ("created_at", VStr "never")])
      "notes" (10 * day)
    = (true, KB (Data [it']) (Data []) (Data []))
    ∧ (sample_note !! "id" = Some (VStr "n1") ∧ it' !! "id" = Some (VStr "n2"))
    ∧ (sample_note !! "type" = Some (VStr "note") ∧ it' !! "type" = Some (VStr "article"))
    ∧ (sample_note !! "created_at" = Some (VStr (isoformat (9 * day)))
       ∧ it' !! "created_at" = Some (VStr "never")).
Proof.
  eexists. split; [vm_compute; reflexivity|]. repeat split.
Qed.

(** ** Matching *)

Lemma searchable_text `{Str} (it : item) (k : string) :
  searchable it → k ∈ ["title"; "content"; "summary"] →
  lower_of (get it k (VStr "")) = Some (lower (text it k)).
Proof.
  intros [Ht _] Hk. unfold get, text.
  by destruct (Ht k Hk) as [-> | [s ->]].
Qed.

Lemma searchable_strings `{Str} (it : item) (k : string) :
  searchable it → k ∈ ["related_tickers"; "tags"] →
  strings_of (get it k (VList [])) = Some (strings it k).
Proof.
  intros [_ Hl] Hk. unfold get, strings.
  by destruct (Hl k Hk) as [-> | [l ->]].
Qed.

(** On a searchable item [_matches_search] returns, and returns True
    exactly when the item matches. *)
Lemma _matches_search_spec `{Str} (it : item) (query : string) (ticker : option string)
    (tags : option (list string)) :
  searchable it →
  ∃ b, _matches_search it query ticker tags = Some b ∧ (b = true ↔ matches it query ticker tags).
Proof.
  intros Hs. unfold _matches_search.
  rewrite !(searchable_text it) by first [assumption | repeat constructor]. simpl.
  set (q := (contains _ _ || contains _ _ || contains _ _)).
  assert (Hq : q = true ↔ query_found it query).
  { unfold q, query_found, caseless_substring.
    rewrite !orb_true_iff, !contains_substring. tauto. }
  assert (Hticker : ∃ b, match ticker with
      | Some t => if String.eqb t "" then Some true
                  else strings_of (get it "related_tickers" (VList [])) ≫=
                       λ ts : list string, Some (bool_decide (upper t ∈ upper <$> ts))
      | None => Some true end = Some b
      ∧ (b = true ↔ ∀ t, ticker = Some t → t ≠ "" → ticker_found it t)).
  { destruct ticker as [t|]; [|by exists true].
    destruct (String.eqb_spec t "") as [->|Hne];
      [exists true; split; [done|]; split; [by intros _ ? [= <-] | done] |].
    rewrite (searchable_strings it) by first [assumption | repeat constructor]. simpl.
    eexists; split; [done|]. rewrite bool_decide_eq_true, list_elem_of_fmap.
    unfold ticker_found. split.
    - intros (t' & Hu & Hin) ? [= <-] _. by exists t'.
    - intros Hf. destruct (Hf t eq_refl Hne) as (t' & Hin & Hc). by exists t'. }
  assert (Htags : ∃ b, match tags with
      | Some ((_ :: _) as tags) =>
          strings_of (get it "tags" (VList [])) ≫= λ ts : list string,
          Some (existsb (λ tag, bool_decide (tag ∈ lower <$> ts)) (lower <$> tags))
      | _ => Some true end = Some b
      ∧ (b = true ↔ ∀ l, tags = Some l → l ≠ [] → tag_found it l)).
  { destruct tags as [[|tag tags]|];
      [exists true; split; [done|]; split; [by intros _ ? [= <-] | done] | |
       by exists true].
    rewrite (searchable_strings it) by first [assumption | repeat constructor].
    eexists; split; [reflexivity|].
    rewrite existsb_exists. unfold tag_found. split.
    - intros (x & Hx & Hd) ? [= <-] _.
      apply list_elem_of_In, list_elem_of_fmap in Hx as (tg & -> & Htg).
      apply bool_decide_eq_true, list_elem_of_fmap in Hd as (t' & Hl & Hin).
      exists tg, t'. split; [done|]. split; [done|]. exact Hl.
    - intros Hf. destruct (Hf _ eq_refl ltac:(done)) as (tg & t' & Htg & Hin & Hc).
      exists (lower tg). split.
      + apply list_elem_of_In, list_elem_of_fmap. eauto.
      + apply bool_decide_eq_true, list_elem_of_fmap. eauto. }
  destruct Hticker as (bt & -> & Hbt), Htags as (bg & -> & Hbg). simpl.
  eexists; split; [done|]. unfold matches.
  rewrite !andb_true_iff, Hq, Hbt, Hbg. tauto.
Qed.

(** ** The stable sort *)

Section sort_facts.
Context {A : Type} (key : A → Q).

Lemma insert_desc_perm (x : A) (l : list A) : insert_desc key x l ≡ₚ x :: l.
Proof.
  induction l as [|y l IH]; simpl; [done|].
  destruct (Qlt_le_dec (key x) (key y)); [|done].
  by rewrite IH, Permutation_swap.
Qed.

Lemma sort_desc_perm (l : list A) : sort_desc key l ≡ₚ l.
Proof.
  induction l as [|x l IH]; simpl; [done|].
  by rewrite insert_desc_perm, IH.
Qed.

Lemma insert_desc_sorted (x : A) (l : list A) :
  StronglySorted (before key) l → StronglySorted (before key) (insert_desc key x l).
Proof.
  induction 1 as [|y l Hl IH Hy]; simpl; [by repeat constructor|].
  destruct (Qlt_le_dec (key x) (key y)) as [Hlt|Hle].
  - constructor; [done|]. rewrite insert_desc_perm. constructor; [|done].
    by apply Qlt_le_weak.
  - constructor; [by constructor|]. constructor; [done|].
    eapply Forall_impl; [exact Hy|]. intros z Hz. unfold before in *.
    by eapply Qle_trans.
Qed.

Lemma sort_desc_sorted (l : list A) : StronglySorted (before key) (sort_desc key l).
Proof.
  induction l as [|x l IH]; simpl; [constructor|]. by apply insert_desc_sorted.
Qed.

(** Stability: among the items of one score the order is the original one. *)
Lemma insert_desc_stable (s : Q) (x : A) (l : list A) :
  filter (λ y, key y == s)%Q (insert_desc key x l) = filter (λ y, key y == s)%Q (x :: l).
Proof.
  induction l as [|y l IH]; simpl; [done|].
  destruct (Qlt_le_dec (key x) (key y)) as [Hlt|Hle]; [|done].
  rewrite filter_cons, IH, !filter_cons.
  destruct (decide (key y == s)%Q) as [Hy|Hy]; [|done].
  destruct (decide (key x == s)%Q) as [Hx|Hx]; [|done].
  rewrite Hx, Hy in Hlt. by apply Qlt_irrefl in Hlt.
Qed.

Lemma sort_desc_stable (s : Q) (l : list A) :
  filter (λ y, key y == s)%Q (sort_desc key l) = filter (λ y, key y == s)%Q l.
Proof.
  induction l as [|x l IH]; simpl; [done|].
  by rewrite insert_desc_stable, !filter_cons, IH.
Qed.
End sort_facts.

(** ** Searching *)

Section search.
Context `{Datetime} `{Str}.

(** The scoring reads the same three fields as the matching, so it returns
    whenever the matching did. *)
Lemma _calculate_relevance_returns (it : item) (query : string) (ticker : option string)
    (tags : option (list string)) (now : Z) :
  is_Some (_matches_search it query ticker tags) →
  is_Some (_calculate_relevance it query now).
Proof.
  unfold _matches_search, _calculate_relevance. intros [b Hb].
  destruct (lower_of (get it "title" _)); [|done].
  destruct (lower_of (get it "content" _)); [|done].
  destruct (lower_of (get it "summary" _)); [|done].
  simpl. eauto.
Qed.

Lemma search_items_spec (clock : nat → Z) (query : string) (ticker : option string)
    (tags : option (list string)) (name : string) (items results : list item) :
  match search_items clock query ticker tags name items results with
  | Some out => ∃ found, out = results ++ found
                 ∧ found_from found (filter (hit query ticker tags) ((name,.) <$> items))
  | None => ¬ Forall (λ it, is_Some (_matches_search it query ticker tags)) items
  end.
Proof.
  revert results. induction items as [|it items IH]; intros results; simpl.
  - exists []. split; [by rewrite app_nil_r | constructor].
  - destruct (_matches_search it query ticker tags) as [[|]|] eqn:Hm; simpl.
    + destruct (_calculate_relevance_returns it query ticker tags
                  (clock (length results))) as [score ->]; [by rewrite Hm|]. simpl.
      specialize (IH (results ++ [<["collection":=VStr name]>
                                    (<["relevance_score":=VNum score]> it)])).
      destruct (search_items _ _ _ _ _ items _) as [out|].
      * destruct IH as (found & -> & Hf).
        eexists. split; [by rewrite <-app_assoc|].
        rewrite filter_cons_True by done. constructor; [by exists score | done].
      * intros Hall. apply IH. by inversion Hall.
    + specialize (IH results).
      destruct (search_items _ _ _ _ _ items _) as [out|].
      * rewrite filter_cons_False; [done|]. unfold hit. simpl. by rewrite Hm.
      * intros Hall. apply IH. by inversion Hall.
    + intros Hall. inversion Hall as [|? ? [? ?]]. congruence.
Qed.
Lemma search_collections_spec (st : kb) (clock : nat → Z) (query : string)
    (ticker : option string) (tags : option (list string))
    (cs : list (string * path)) (results : list item) :
  match search_collections st clock query ticker tags cs results with
  | Some out => ∃ found, out = results ++ found
                 ∧ found_from found (filter (hit query ticker tags) (visited_in st cs))
  | None => ¬ Forall (λ m, is_Some (_matches_search m.2 query ticker tags)) (visited_in st cs)
  end.
Proof.
  revert results. induction cs as [|[name p] cs IH]; intros results.
  - exists []. split; [by rewrite app_nil_r | constructor].
  - pose proof (search_items_spec clock query ticker tags name (_load_data st p) results) as Hi.
    change (visited_in st ((name, p) :: cs))
      with (((name,.) <$> _load_data st p) ++ visited_in st cs).
    cbn [search_collections].
    destruct (search_items _ _ _ _ _ _ _) as [out|]; simpl.
    + destruct Hi as (found & -> & Hf). specialize (IH (results ++ found)).
      destruct (search_collections _ _ _ _ _ cs _) as [out|].
      * destruct IH as (found' & -> & Hf').
        exists (found ++ found'). split; [by rewrite app_assoc|].
        rewrite filter_app. by apply Forall2_app.
      * rewrite Forall_app. tauto.
    + rewrite Forall_app, Forall_fmap. tauto.
Qed.

(** Only the readings of the clock matter, not the clock. *)
Lemma search_items_ext (clock clock' : nat → Z) (query : string) (ticker : option string)
    (tags : option (list string)) (name : string) (items results : list item) :
  (∀ k, clock' k = clock k) →
  search_items clock' query ticker tags name items results
  = search_items clock query ticker tags name items results.
Proof.
  intros Hc. revert results. induction items as [|it items IH]; intros results; simpl; [done|].
  destruct (_matches_search it query ticker tags) as [[|]|]; simpl; [|done..].
  rewrite Hc. destruct (_calculate_relevance _ _ _); simpl; [apply IH | done].
Qed.

Lemma search_collections_ext (st : kb) (clock clock' : nat → Z) (query : string)
    (ticker : option string) (tags : option (list string))
    (cs : list (string * path)) (results : list item) :
  (∀ k, clock' k = clock k) →
  search_collections st clock' query ticker tags cs results
  = search_collections st clock query ticker tags cs results.
Proof.
  intros Hc. revert results. induction cs as [|[name p] cs IH]; intros results; simpl; [done|].
  rewrite (search_items_ext clock clock') by done.
  destruct (search_items _ _ _ _ _ _ _); simpl; [apply IH | done].
Qed.
End search.

(** The selection by [search_type]. *)
Lemma elem_of_collections (search_type name : string) (p : path) :
  (name, p) ∈ collections search_type
  ↔ (name, p) ∈ all_collections ∧ (search_type = "all" ∨ search_type = name).
Proof.
  unfold collections, all_collections.
  destruct (String.eqb_spec search_type "all") as [Hall|Hall],
    (String.eqb_spec search_type "notes") as [Hn|Hn],
    (String.eqb_spec search_type "articles") as [Ha|Ha],
    (String.eqb_spec search_type "research") as [Hr|Hr];
    simpl; rewrite ?elem_of_cons, ?elem_of_nil; naive_solver.
Qed.

Lemma elem_of_visited (st : kb) (search_type : string) (m : string * item) :
  m ∈ visited st search_type
  ↔ ∃ p, (m.1, p) ∈ collections search_type ∧ m.2 ∈ _load_data st p.
Proof.
  unfold visited, visited_in. rewrite list_elem_of_bind. split.
  - intros ([name p] & Hm & Hc). simpl in Hm.
    apply list_elem_of_fmap in Hm as (it & -> & Hit). by exists p.
  - intros (p & Hc & Hit). exists (m.1, p). split; [|done]. simpl.
    apply list_elem_of_fmap. exists m.2. split; [by destruct m | done].
Qed.

Lemma annotated_lookup (it : item) (name : string) (score : Q) (k : string) :
  k ≠ "collection" → k ≠ "relevance_score" → annotated it name score !! k = it !! k.
Proof. intros H1 H2. unfold annotated. by rewrite !lookup_insert_ne. Qed.

Lemma annotated_collection (it : item) (name : string) (score : Q) :
  annotated it name score !! "collection" = Some (VStr name).
Proof. apply lookup_insert_eq. Qed.

Lemma annotated_score (it : item) (name : string) (score : Q) :
  relevance_score (annotated it name score) = score.
Proof.
  unfold relevance_score, get, annotated.
  by rewrite lookup_insert_ne, lookup_insert_eq.
Qed.

(** The matching predicate reads five fields only. *)
Lemma matches_ext `{Str} (it it' : item) (query : string) (ticker : option string)
    (tags : option (list string)) :
  (∀ k, k ∈ ["title"; "content"; "summary"; "related_tickers"; "tags"] → it !! k = it' !! k) →
  matches it query ticker tags → matches it' query ticker tags.
Proof.
  intros Hk. unfold matches, query_found, ticker_found, tag_found, text, strings.
  by rewrite !Hk by repeat constructor.
Qed.

(** What [search_knowledge_base] returns when no item raises: the sorted
    list of the annotated hits. *)
Lemma search_knowledge_base_found `{Datetime} `{Str} (st : kb) (clock : nat → Z)
    (query search_type : string) (ticker : option string) (tags : option (list string)) :
  Forall (λ m, searchable m.2) (visited st search_type) →
  ∃ found,
    search_knowledge_base st clock query search_type ticker tags
      = sort_desc relevance_score found
    ∧ found_from found (filter (hit query ticker tags) (visited st search_type)).
Proof.
  intros Hs. unfold search_knowledge_base.
  pose proof (search_collections_spec st clock query ticker tags
                (collections search_type) []) as Hc.
  destruct (search_collections _ _ _ _ _ _ _) as [out|].
  - destruct Hc as (found & -> & Hf). by exists found.
  - exfalso. apply Hc. eapply Forall_impl; [exact Hs|]. intros m Hm.
    destruct (_matches_search_spec m.2 query ticker tags Hm) as (b & -> & _). eauto.
Qed.

(** C3, as the code has it.  Take a search whose visited items have text
    and list fields of the declared types.  An item stored in one of the
    three collections is in the results, annotated, exactly when its
    collection is selected by [search_type] and it matches: the query in
    lower case is a substring of the title, the content or the summary in
    lower case (an absent field being empty); a non-empty ticker in upper
    case is one of the related tickers in upper case; a non-empty tag list
    has a tag that, in lower case, is one of the item's tags in lower case.
    Lower and upper case are Python's [str.lower] and [str.upper], on any
    text. *)
Theorem search_includes_exactly_matches `{Datetime} `{Str} (st : kb) (clock : nat → Z)
    (query search_type : string) (ticker : option string) (tags : option (list string))
    (name : string) (p : path) (it : item) :
  Forall (λ m, searchable m.2) (visited st search_type) →
  (name, p) ∈ all_collections →
  it ∈ _load_data st p →
  (∃ score, annotated it name score
              ∈ search_knowledge_base st clock query search_type ticker tags)
  ↔ (search_type = "all" ∨ search_type = name) ∧ matches it query ticker tags.
Proof.
  intros Hs Hname Hit.
  destruct (search_knowledge_base_found st clock query search_type ticker tags Hs)
    as (found & -> & Hf).
  split.
  - intros (score & Hin). rewrite sort_desc_perm in Hin.
    apply list_elem_of_lookup in Hin as (i & Hi).
    destruct (Forall2_lookup_l _ _ _ _ _ Hf Hi) as (m & Hm & score' & Heq).
    apply list_elem_of_lookup_2, list_elem_of_filter in Hm as (Hhit & Hvis).
    assert (m.1 = name) as Hn.
    { pose proof (annotated_collection it name score) as Hc.
      rewrite Heq, annotated_collection in Hc. congruence. }
    split.
    + apply elem_of_visited in Hvis as (p' & Hc & _).
      apply elem_of_collections in Hc as (_ & Hc). by rewrite <-Hn.
    + apply (matches_ext m.2).
      * intros k Hk. rewrite <-(annotated_lookup m.2 m.1 score' k),
          <-(annotated_lookup it name score k), Heq; [done|..];
          intros ->; repeat (apply elem_of_cons in Hk as [Hk|Hk]; [done|]);
          by apply elem_of_nil in Hk.
      * rewrite Forall_forall in Hs.
        destruct (_matches_search_spec m.2 query ticker tags (Hs m Hvis))
          as (b & Hb & Hiff).
        apply Hiff. unfold hit in Hhit. congruence.
  - intros (Hsel & Hmatch).
    assert ((name, it) ∈ visited st search_type) as Hvis.
    { apply elem_of_visited. exists p. split; [|done]. by apply elem_of_collections. }
    assert (hit query ticker tags (name, it)) as Hhit.
    { rewrite Forall_forall in Hs.
      destruct (_matches_search_spec it query ticker tags (Hs _ Hvis)) as (b & Hb & Hiff).
      unfold hit. simpl. rewrite Hb. f_equal. by apply Hiff. }
    assert ((name, it) ∈ filter (hit query ticker tags) (visited st search_type)) as Hin
      by by apply list_elem_of_filter.
    apply list_elem_of_lookup in Hin as (i & Hi).
    destruct (Forall2_lookup_r _ _ _ _ _ Hf Hi) as (x & Hx & score & ->).
    exists score. rewrite sort_desc_perm. by eapply list_elem_of_lookup_2.
Qed.

Lemma sample_note_searchable : searchable sample_note.
Proof.
  split; intros k Hk;
    repeat (apply elem_of_cons in Hk as [->|Hk];
            [first [by left | right; by eexists]|]);
    by apply elem_of_nil in Hk.
Qed.

Lemma search_includes_exactly_matches_witness :
  (∃ score, annotated sample_note "notes" score
              ∈ search_knowledge_base sample_kb (λ _, 10 * day)%Z "apple" "all" None None)
  ↔ ("all" = "all" ∨ "all" = "notes") ∧ matches sample_note "apple" None None.
Proof.
  apply (search_includes_exactly_matches sample_kb (λ _, 10 * day)%Z "apple" "all" None None
           "notes" NotesFile sample_note).
  - change (visited sample_kb "all") with [("notes", sample_note)].
    constructor; [apply sample_note_searchable | constructor].
  - repeat constructor.
  - repeat constructor.
Defined.

(** C3 as the spec states it fails.  The sample note matches the query
    "Apple", yet a search restricted to the articles does not return it; and
    with an empty tag list, which no tag of the note can match, the search
    returns the note. *)
Lemma search_skips_other_collections :
  (matches sample_note "Apple" None None
   ∧ sample_note ∈ get_all_items sample_kb "all"
   ∧ search_knowledge_base sample_kb (λ _, 10 * day)%Z "Apple" "articles" None None = [])
  ∧ (¬ tag_found sample_note []
     ∧ sample_note !! "id" = Some (VStr "n1")
     ∧ (.!! "id") <$> search_knowledge_base sample_kb (λ _, 10 * day)%Z "Apple" "all"
                        None (Some [])
       = [Some (VStr "n1")]).
Proof.
  split; [split; [|split]|split; [|split]].
  - split; [|done]. left. apply contains_substring. vm_compute. reflexivity.
  - repeat constructor.
  - vm_compute. reflexivity.
  - intros (tag & t & Htag & _). by apply elem_of_nil in Htag.
  - vm_compute. reflexivity.
  - vm_compute. reflexivity.
Qed.

(** The scenario of the repository's own test: the article was added
    without content, [.lower()] on its None raises, and the search for
    "test" over all collections returns nothing, although the note is
    found when only the notes are searched. *)
Example search_test_kb :
  search_knowledge_base test_kb (λ _, 4%Z) "test" "all" None None = []
  ∧ length (search_knowledge_base test_kb (λ _, 4%Z) "test" "notes" None None) = 1%nat.
Proof. split; vm_compute; reflexivity. Qed.

(** ** Scoring *)

Lemma day_pos : (0 < day)%Z.
Proof. reflexivity. Qed.

(** One loop over the terms adds the weight once for each term present. *)
Lemma add_matches_sum (weight : Q) (text : string) (terms : list string) (score : Q) :
  (add_matches weight text terms score
   == score + sum_over (λ term, flag weight (contains term text)) terms)%Q.
Proof.
  unfold add_matches. revert score.
  induction terms as [|term terms IH]; intros score; simpl.
  - ring.
  - rewrite IH. unfold flag. destruct (contains term text); ring.
Qed.

Lemma sum_over_plus (f g h : string → Q) (terms : list string) :
  (sum_over f terms + sum_over g terms + sum_over h terms
   == sum_over (λ term, f term + g term + h term) terms)%Q.
Proof.
  induction terms as [|term terms IH]; simpl.
  - ring.
  - rewrite <-IH. ring.
Qed.

Lemma lower_of_get_text `{Str} (it : item) (k s : string) :
  lower_of (get it k (VStr "")) = Some s → s = lower (text it k).
Proof.
  unfold get, text. destruct (it !! k) as [[| | |]|]; simpl; congruence.
Qed.

Section scoring.
Context `{Datetime} `{Str}.

Lemma days_old_created_at (it : item) (now : Z) :
  days_old it now = (λ created, (now - created) `div` day)%Z <$> created_at it.
Proof.
  unfold days_old, created_at, get.
  destruct (it !! "created_at") as [[|s| |]|] eqn:Hc; simpl; try done.
  by rewrite fromisoformat_empty.
Qed.

(** The test on whole days is a test on the age. *)
Lemma days_lt (age n : Z) : (age `div` day <? n)%Z = bool_decide (age < n * day)%Z.
Proof.
  pose proof day_pos. destruct (Z.ltb_spec (age `div` day) n) as [Hlt|Hge].
  - symmetry. apply bool_decide_eq_true.
    destruct (Z_lt_le_dec age (n * day)) as [|Hle]; [done|].
    apply (Z.div_le_mono _ _ day) in Hle; [|done].
    rewrite Z.div_mul in Hle by lia.
    destruct (Z.lt_irrefl n). by eapply Z.le_lt_trans.
  - symmetry. apply bool_decide_eq_false. intros Hlt.
    assert (age `div` day < n)%Z as Hlt'
      by (apply Z.div_lt_upper_bound; [done | by rewrite Z.mul_comm]).
    destruct (Z.lt_irrefl n). by eapply Z.le_lt_trans.
Qed.

Lemma recency_bonus_code (it : item) (now : Z) (score : Q) :
  (match days_old it now with
   | Some d => if (d <? 30)%Z then score + 0.5
               else if (d <? 90)%Z then score + 0.2 else score
   | None => score
   end == score + recency_bonus it now)%Q.
Proof.
  rewrite days_old_created_at. unfold recency_bonus.
  destruct (created_at it) as [created|]; simpl; [|ring].
  rewrite !days_lt. repeat case_bool_decide; repeat case_decide; try lia; ring.
Qed.
End scoring.

(** C4.  For a matched item the score is returned and is the sum, over the
    terms of the lower-cased query ([query.lower().split()], on any text),
    of 3.0, 1.0 and 1.5 for the term being present in the lower-cased
    title, content and summary, plus the recency bonus: 0.5
    under 30 days of age, else 0.2 under 90 days, nothing when [created_at]
    does not parse.  The note of the example, one day old, scores 3.5 for
    "Apple". *)
Theorem relevance_is_weighted_sum `{Datetime} `{Str} :
  (∀ (it : item) (query : string) (ticker : option string) (tags : option (list string))
     (now : Z),
     _matches_search it query ticker tags = Some true →
     ∃ score, _calculate_relevance it query now = Some score
       ∧ (score == sum_over (term_score it) (split (lower query)) + recency_bonus it now)%Q
       ∧ (created_at it = None → recency_bonus it now = 0%Q))
  ∧ (∀ now : Z,
       ∃ score, _calculate_relevance (apple_note (now - day)) "Apple" now = Some score
         ∧ (score == 3.5)%Q).
Proof.
  assert (Hgen : ∀ it query now,
    is_Some (lower_of (get it "title" (VStr ""))) →
    is_Some (lower_of (get it "content" (VStr ""))) →
    is_Some (lower_of (get it "summary" (VStr ""))) →
    ∃ score, _calculate_relevance it query now = Some score
      ∧ (score == sum_over (term_score it) (split (lower query)) + recency_bonus it now)%Q).
  { intros it query now [t Ht] [c Hc] [s Hs]. unfold _calculate_relevance.
    rewrite Ht, Hc, Hs. simpl. eexists. split; [done|].
    rewrite recency_bonus_code, !add_matches_sum.
    apply lower_of_get_text in Ht as ->, Hc as ->, Hs as ->.
    unfold term_score. rewrite <-sum_over_plus. ring. }
  split.
  - intros it query ticker tags now Hm.
    destruct (Hgen it query now) as (score & Hscore & Hsum).
    + unfold _matches_search in Hm. by destruct (lower_of (get it "title" _)).
    + unfold _matches_search in Hm. destruct (lower_of (get it "title" _)); [|done].
      by destruct (lower_of (get it "content" _)).
    + unfold _matches_search in Hm. destruct (lower_of (get it "title" _)); [|done].
      destruct (lower_of (get it "content" _)); [|done].
      by destruct (lower_of (get it "summary" _)).
    + exists score. split; [done|]. split; [done|].
      intros Hnone. unfold recency_bonus. by rewrite Hnone.
  - intros now. destruct (Hgen (apple_note (now - day)) "Apple" now)
      as (score & Hscore & Hsum); [by eexists..|].
    exists score. split; [done|]. rewrite Hsum.
    assert (recency_bonus (apple_note (now - day)) now = 0.5%Q) as ->.
    { assert (created_at (apple_note (now - day)) = Some (now - day)%Z) as Hc
        by apply fromisoformat_isoformat.
      unfold recency_bonus. rewrite Hc, decide_True; [done|].
      pose proof day_pos. lia. }
    rewrite (lower_ascii "Apple") by reflexivity.
    rewrite (split_ascii (ascii_lower "Apple")) by reflexivity.
    unfold term_score.
    change (text (apple_note (now - day)) "title") with "Apple earnings beat".
    change (text (apple_note (now - day)) "content") with "iPhone sales up".
    change (text (apple_note (now - day)) "summary") with "".
    rewrite !lower_ascii by reflexivity.
    by vm_compute.
Qed.

Lemma relevance_is_weighted_sum_witness :
  ∃ score, _calculate_relevance sample_note "Apple" (10 * day) = Some score
    ∧ (score == sum_over (term_score sample_note) (split (lower "Apple"))
                + recency_bonus sample_note (10 * day))%Q
    ∧ (created_at sample_note = None → recency_bonus sample_note (10 * day) = 0%Q).
Proof.
  apply (proj1 relevance_is_weighted_sum sample_note "Apple" None None (10 * day)%Z).
  vm_compute. reflexivity.
Defined.

(** ** Ranking *)

(** C5, as the code has it.  The results are sorted by decreasing score.
    Unless an item raised, which empties the result, they are a permutation
    of the annotated hits taken in the order of the visit, and the results
    of any one score keep that order; the visit goes through the notes, the
    articles and the research entries, each in storage order.  The results
    are determined by the store, the arguments and the readings of the
    clock. *)
Theorem search_sorted_stable `{Datetime} `{Str} (st : kb) (clock : nat → Z)
    (query search_type : string) (ticker : option string) (tags : option (list string)) :
  let results := search_knowledge_base st clock query search_type ticker tags in
  StronglySorted (before relevance_score) results
  ∧ (results = []
     ∨ ∃ found,
         found_from found (filter (hit query ticker tags) (visited st search_type))
         ∧ results ≡ₚ found
         ∧ ∀ s, filter (λ x, relevance_score x == s)%Q results
                = filter (λ x, relevance_score x == s)%Q found)
  ∧ visited st "all"
    = (("notes",.) <$> _load_data st NotesFile)
      ++ (("articles",.) <$> _load_data st ArticlesFile)
      ++ (("research",.) <$> _load_data st ResearchFile)
  ∧ (∀ clock', (∀ k, clock' k = clock k) →
       search_knowledge_base st clock' query search_type ticker tags = results).
Proof.
  intros results. subst results. unfold search_knowledge_base.
  split; [|split; [|split]].
  - destruct (search_collections _ _ _ _ _ _ _); [apply sort_desc_sorted | constructor].
  - pose proof (search_collections_spec st clock query ticker tags
                  (collections search_type) []) as Hc.
    destruct (search_collections _ _ _ _ _ _ _) as [out|]; [right | by left].
    destruct Hc as (found & -> & Hf). exists found.
    split; [done|]. split; [apply sort_desc_perm | intros s; apply sort_desc_stable].
  - unfold visited, visited_in. simpl. by rewrite app_nil_r.
  - intros clock' Hc. by rewrite (search_collections_ext st clock clock').
Qed.

(** C5 as the spec states it fails: the store and the arguments do not
    determine the results.  The same search on the same store returns "a"
    before "b" at day 59 and "b" before "a" at day 62, when "a" has lost its
    30-day bonus and ties with "b". *)
Lemma search_depends_on_the_clock :
  (.!! "id") <$> search_knowledge_base aging_kb (λ _, 59 * day)%Z "apple" "all" None None
    = [Some (VStr "a"); Some (VStr "b")]
  ∧ (.!! "id") <$> search_knowledge_base aging_kb (λ _, 62 * day)%Z "apple" "all" None None
    = [Some (VStr "b"); Some (VStr "a")].
Proof. split; vm_compute; reflexivity. Qed.

(** ** Getting *)

Lemma has_id_eq_str (it : item) (item_id : string) (v : value) :
  it !! "id" = Some v → (eq_str v item_id = true ↔ has_id item_id it).
Proof.
  intros Hv. rewrite <-lookup_eq_str. split; [by eauto|].
  intros (v' & Hv' & He). congruence.
Qed.

(** On items that all have an id, the loop returns the first one with the
    id asked for. *)
Lemma find_id_first (item_id : string) (items : list item) :
  keyed items → find_id item_id items = Some (head (filter (has_id item_id) items)).
Proof.
  induction 1 as [|it items [v Hv] _ IH]; simpl; [done|].
  rewrite Hv. simpl. rewrite filter_cons.
  destruct (eq_str v item_id) eqn:He.
  - rewrite decide_True; [done|]. by apply (has_id_eq_str it item_id v).
  - rewrite decide_False; [done|]. rewrite <-(has_id_eq_str it item_id v) by done.
    by rewrite He.
Qed.

Lemma file_path_all_collections (kind : string) (p : path) :
  file_path kind = Some p ↔ (kind, p) ∈ all_collections.
Proof.
  unfold file_path, all_collections. rewrite !elem_of_cons, elem_of_nil.
  destruct (String.eqb_spec kind "notes") as [Hn|Hn],
    (String.eqb_spec kind "articles") as [Ha|Ha],
    (String.eqb_spec kind "research") as [Hr|Hr]; naive_solver.
Qed.

(** C6.  With a kind given, [get_item] looks in that collection only and
    returns its first item with the id.  With the kind omitted it returns
    the first item with the id in the notes, then the articles, then the
    research entries.  It returns None exactly when no item there has the
    id.  (Items are assumed to have ids, as all items the store creates
    do.) *)
Theorem get_item_first_match (st : kb) (item_id : string) :
  keyed (get_all_items st "all") →
  (∀ kind p, (kind, p) ∈ all_collections →
     get_item st item_id (Some kind) = head (filter (has_id item_id) (_load_data st p)))
  ∧ get_item st item_id None
    = head (filter (has_id item_id)
              (_load_data st NotesFile ++ _load_data st ArticlesFile
               ++ _load_data st ResearchFile))
  ∧ (get_item st item_id None = None
     ↔ ∀ it, it ∈ get_all_items st "all" → ¬ has_id item_id it).
Proof.
  intros Hk. change (get_all_items st "all")
      with ((_load_data st NotesFile ++ _load_data st ArticlesFile)
            ++ _load_data st ResearchFile) in *.
  rewrite app_assoc.
  apply Forall_app in Hk as [Hk Hr]. apply Forall_app in Hk as [Hn Ha].
  split.
  - intros kind p Hin. unfold get_item, get_item_try.
    unfold all_collections in Hin. rewrite !elem_of_cons, elem_of_nil in Hin.
    destruct Hin as [[= -> ->]|[[= -> ->]|[[= -> ->]|[]]]]; simpl;
      rewrite find_id_first by done; simpl; by destruct (head _).
  - assert (get_item st item_id None
            = head (filter (has_id item_id)
                      ((_load_data st NotesFile ++ _load_data st ArticlesFile)
                       ++ _load_data st ResearchFile))) as Hget.
    { unfold get_item, get_item_try. simpl.
      rewrite (find_id_first _ _ Hn), (find_id_first _ _ Ha), (find_id_first _ _ Hr).
      rewrite !filter_app, !head_app. simpl.
      destruct (head (filter _ (_load_data st NotesFile))); [done|]. simpl.
      by destruct (head (filter _ (_load_data st ArticlesFile))). }
    split; [done|]. rewrite Hget, head_None. split.
    + intros Hnil it Hit Hid.
      assert (it ∈ filter (has_id item_id)
                ((_load_data st NotesFile ++ _load_data st ArticlesFile)
                 ++ _load_data st ResearchFile)) as Hin by by apply list_elem_of_filter.
      rewrite Hnil in Hin. by apply elem_of_nil in Hin.
    + intros Hno. apply elem_of_nil_inv. intros it Hin.
      apply list_elem_of_filter in Hin as [Hid Hit]. by apply (Hno it).
Qed.

Lemma get_item_first_match_witness :
  (∀ kind p, (kind, p) ∈ all_collections →
     get_item test_kb "a1" (Some kind) = head (filter (has_id "a1") (_load_data test_kb p)))
  ∧ get_item test_kb "a1" None
    = head (filter (has_id "a1")
              (_load_data test_kb NotesFile ++ _load_data test_kb ArticlesFile
               ++ _load_data test_kb ResearchFile))
  ∧ (get_item test_kb "a1" None = None
     ↔ ∀ it, it ∈ get_all_items test_kb "all" → ¬ has_id "a1" it).
Proof.
  apply (get_item_first_match test_kb "a1").
  repeat constructor; by eexists.
Defined.

(** ** Deleting *)

(** On items that all have an id, the comprehension keeps the items
    without the id. *)
Lemma without_id_filter (item_id : string) (items : list item) :
  keyed items → without_id item_id items = Some (filter (λ it, ¬ has_id item_id it) items).
Proof.
  induction 1 as [|it items [v Hv] _ IH]; simpl; [done|].
  rewrite Hv, IH. simpl. rewrite filter_cons.
  destruct (eq_str v item_id) eqn:He.
  - rewrite decide_False; [done|]. intros Hno. by apply Hno, (has_id_eq_str it item_id v).
  - rewrite decide_True; [done|]. rewrite <-(has_id_eq_str it item_id v) by done.
    by rewrite He.
Qed.

Lemma filter_keeps_all (item_id : string) (items : list item) :
  Forall (λ it, ¬ has_id item_id it) items →
  filter (λ it, ¬ has_id item_id it) items = items.
Proof.
  induction 1 as [|it items Hit _ IH]; [done|]. by rewrite filter_cons_True, IH.
Qed.

Lemma filter_shorter (item_id : string) (items : list item) :
  length (filter (λ it, ¬ has_id item_id it) items) < length items
  ↔ ∃ it, it ∈ items ∧ has_id item_id it.
Proof.
  split.
  - intros Hlt. destruct (decide (Exists (has_id item_id) items)) as [Hex|Hno].
    + apply Exists_exists in Hex as (it & ? & ?). eauto.
    + apply not_Exists_Forall in Hno; [|apply _].
      rewrite (filter_keeps_all _ _ Hno) in Hlt. lia.
  - intros (it & Hin & Hid). apply (length_filter_lt _ _ it); [done|]. by intros Hno.
Qed.

Lemma get_all_items_kind (st : kb) (kind : string) (p : path) :
  file_path kind = Some p → get_all_items st kind = _load_data st p.
Proof.
  unfold file_path, get_all_items.
  destruct (String.eqb kind "notes"); [by intros [= <-]|].
  destruct (String.eqb kind "articles"); [by intros [= <-]|].
  destruct (String.eqb kind "research"); [by intros [= <-]|done].
Qed.

Lemma load_save_same (st : kb) (p : path) (data : list item) :
  _load_data (_save_data st p data) p = data.
Proof. by destruct p. Qed.

Lemma load_save_other (st : kb) (p q : path) (data : list item) :
  q ≠ p → _load_data (_save_data st p data) q = _load_data st q.
Proof. by destruct p, q. Qed.

Lemma elem_of_get_all_items (st : kb) (it : item) :
  it ∈ get_all_items st "all" ↔ ∃ q, it ∈ _load_data st q.
Proof.
  change (get_all_items st "all")
    with ((_load_data st NotesFile ++ _load_data st ArticlesFile)
          ++ _load_data st ResearchFile).
  rewrite !elem_of_app. split.
  - intros [[?|?]|?]; eauto.
  - intros ([] & ?); auto.
Qed.

(** C7.  For a recognised kind whose items have ids, [delete_item] returns
    True exactly when the collection holds an item with the id; it then
    saves the collection without the items of that id and touches nothing
    else; otherwise the store is unchanged.  A second call returns False
    and changes nothing, no item listed for the kind has the id, and an
    item with the id listed under "all" comes from another collection. *)
Theorem delete_item_removes (st : kb) (item_id kind : string) (p : path) :
  file_path kind = Some p → keyed (_load_data st p) →
  ∃ removed st',
    delete_item st item_id kind = (removed, st')
    ∧ (removed = true ↔ ∃ it, it ∈ _load_data st p ∧ has_id item_id it)
    ∧ (removed = true →
       st' = write st p (Data (filter (λ it, ¬ has_id item_id it) (_load_data st p))))
    ∧ (removed = false → st' = st)
    ∧ delete_item st' item_id kind = (false, st')
    ∧ (∀ it, it ∈ get_all_items st' kind → ¬ has_id item_id it)
    ∧ (∀ it, it ∈ get_all_items st' "all" → has_id item_id it →
         ∃ q, q ≠ p ∧ it ∈ _load_data st q).
Proof.
  intros Hp Hk.
  set (kept := filter (λ it, ¬ has_id item_id it) (_load_data st p)).
  assert (Hkept : keyed kept).
  { apply Forall_forall. intros it Hin. apply list_elem_of_filter in Hin as [_ Hin].
    unfold keyed in Hk. rewrite Forall_forall in Hk. by apply Hk. }
  assert (Hidem : filter (λ it, ¬ has_id item_id it) kept = kept)
    by by apply list_filter_filter_l.
  assert (Hagain : ∀ st', _load_data st' p = kept → delete_item st' item_id kind = (false, st')).
  { intros st' Hl. unfold delete_item. rewrite Hp, Hl, (without_id_filter _ _ Hkept), Hidem.
    by rewrite Nat.ltb_irrefl. }
  assert (Hnone : ∀ it, it ∈ kept → ¬ has_id item_id it).
  { intros it Hin. by apply list_elem_of_filter in Hin as [? _]. }
  unfold delete_item at 1. rewrite Hp, (without_id_filter _ _ Hk). fold kept.
  destruct (Nat.ltb_spec (length kept) (length (_load_data st p))) as [Hlt|Hge].
  - exists true, (_save_data st p kept).
    assert (Hl : _load_data (_save_data st p kept) p = kept) by apply load_save_same.
    split; [done|]. split; [|split; [done|split; [done|split; [|split]]]].
    + split; [intros _; by apply filter_shorter | done].
    + by apply Hagain.
    + intros it. rewrite (get_all_items_kind _ kind p Hp), Hl. apply Hnone.
    + intros it Hin Hid. apply elem_of_get_all_items in Hin as (q & Hq).
      destruct (decide (q = p)) as [->|Hne].
      * rewrite Hl in Hq. by destruct (Hnone it).
      * exists q. split; [done|]. by rewrite load_save_other in Hq.
  - assert (Hsame : kept = _load_data st p).
    { destruct (decide (Exists (has_id item_id) (_load_data st p))) as [Hex|Hno].
      - apply Exists_exists in Hex as (it & Hin & Hid).
        assert (length kept < length (_load_data st p)) by (apply filter_shorter; eauto).
        lia.
      - apply not_Exists_Forall in Hno; [|apply _]. by apply filter_keeps_all. }
    exists false, st.
    split; [done|]. split; [|split; [done|split; [done|split; [|split]]]].
    + split; [done|]. intros Hex. apply filter_shorter in Hex. fold kept in Hex. lia.
    + by apply Hagain.
    + intros it. rewrite (get_all_items_kind _ kind p Hp), <-Hsame. apply Hnone.
    + intros it Hin Hid. apply elem_of_get_all_items in Hin as (q & Hq).
      destruct (decide (q = p)) as [->|Hne]; [|by eauto].
      rewrite <-Hsame in Hq. by destruct (Hnone it).
Qed.

Lemma delete_item_removes_witness :
  ∃ removed st',
    delete_item sample_kb "n1" "notes" = (removed, st')
    ∧ (removed = true ↔ ∃ it, it ∈ _load_data sample_kb NotesFile ∧ has_id "n1" it)
    ∧ (removed = true →
       st' = write sample_kb NotesFile
               (Data (filter (λ it, ¬ has_id "n1" it) (_load_data sample_kb NotesFile))))
    ∧ (removed = false → st' = sample_kb)
    ∧ delete_item st' "n1" "notes" = (false, st')
    ∧ (∀ it, it ∈ get_all_items st' "notes" → ¬ has_id "n1" it)
    ∧ (∀ it, it ∈ get_all_items st' "all" → has_id "n1" it →
         ∃ q, q ≠ NotesFile ∧ it ∈ _load_data sample_kb q).
Proof.
  apply (delete_item_removes sample_kb "n1" "notes" NotesFile).
  - reflexivity.
  - repeat constructor; by eexists.
Defined.

(** ** Unknown kinds and unreadable files *)

(** C9.  A kind other than the three names makes [update_item] and
    [delete_item] return False with the store unchanged. *)
Theorem unknown_kind_rejected `{Datetime} (st : kb) (item_id : string)
    (updates : gmap string value) (kind : string) (now : Z) :
  kind ≠ "notes" → kind ≠ "articles" → kind ≠ "research" →
  update_item st item_id updates kind now = (false, st)
  ∧ delete_item st item_id kind = (false, st).
Proof.
  intros Hn Ha Hr. unfold update_item, delete_item, file_path.
  apply String.eqb_neq in Hn as ->, Ha as ->, Hr as ->. done.
Qed.

Lemma unknown_kind_rejected_witness :
  update_item sample_kb "n1" {["title" := VStr "x"]} "all" (10 * day) = (false, sample_kb)
  ∧ delete_item sample_kb "n1" "all" = (false, sample_kb).
Proof.
  apply (unknown_kind_rejected sample_kb "n1" {["title" := VStr "x"]} "all" (10 * day)%Z);
    discriminate.
Defined.

(** C10.  When the file of the collection is missing or unreadable the
    load gives the empty list, and [update_item] and [delete_item] return
    False leaving the store as it was: the file is not written. *)
Theorem unreadable_file_not_written `{Datetime} (st : kb) (item_id : string)
    (updates : gmap string value) (kind : string) (p : path) (now : Z) :
  file_path kind = Some p →
  read st p = Missing ∨ read st p = Unreadable →
  _load_data st p = []
  ∧ update_item st item_id updates kind now = (false, st)
  ∧ delete_item st item_id kind = (false, st).
Proof.
  intros Hp Hread.
  assert (_load_data st p = []) as Hl by (unfold _load_data; by destruct Hread as [-> | ->]).
  unfold update_item, delete_item. by rewrite Hp, Hl.
Qed.

Lemma unreadable_file_not_written_witness :
  _load_data corrupt_kb NotesFile = []
  ∧ update_item corrupt_kb "n1" {["title" := VStr "x"]} "notes" (10 * day)
    = (false, corrupt_kb)
  ∧ delete_item corrupt_kb "n1" "notes" = (false, corrupt_kb).
Proof.
  apply (unreadable_file_not_written corrupt_kb "n1" {["title" := VStr "x"]} "notes"
           NotesFile (10 * day)%Z).
  - reflexivity.
  - right. reflexivity.
Defined.

(** Adding is another matter: the empty list the failed load gave is
    extended and saved over the file. *)
Example add_note_over_unreadable_file :
  notes_file (add_note corrupt_kb "n2" 0 0 (VStr "T") (VStr "c") None None).2
  = Data [list_to_map [
      ("id", VStr "n2"); ("type", VStr "note"); ("title", VStr "T"); ("content", VStr "c");
      ("tags", VList []); ("related_tickers", VList []);
      ("created_at", VStr (isoformat 0)); ("updated_at", VStr (isoformat 0)) ]].
Proof. reflexivity. Qed.

(** ** Timestamps *)

Lemma last_elem_of (l : list Z) (d : Z) : List.last l d ∈ d :: l.
Proof.
  induction l as [|x l IH]; [by left|].
  destruct l as [|y l]; [right; by left|].
  change (List.last (x :: y :: l) d) with (List.last (y :: l) d).
  apply elem_of_cons in IH as [->|IH]; [by left | by do 2 right].
Qed.

Section timestamps.
Context `{Datetime} `{Str}.

Lemma stamped_by_mono (hi hi' : Z) (it : item) :
  (hi ≤ hi')%Z → stamped_by hi it → stamped_by hi' it.
Proof.
  intros Hle (c & u & Hc & Hu & Hcu & Huh). exists c, u. repeat split; [done..|lia].
Qed.

Lemma kb_stamped_by_mono (hi hi' : Z) (st : kb) :
  (hi ≤ hi')%Z → kb_stamped_by hi st → kb_stamped_by hi' st.
Proof. intros Hle Hst p it Hin. eapply stamped_by_mono; [done|]. by eapply Hst. Qed.

(** Saving a collection whose items are stamped keeps the store stamped. *)
Lemma kb_stamped_by_save (hi : Z) (st : kb) (p : path) (data : list item) :
  kb_stamped_by hi st → Forall (stamped_by hi) data →
  kb_stamped_by hi (_save_data st p data).
Proof.
  intros Hst Hdata q it Hin. destruct (decide (q = p)) as [->|Hne].
  - rewrite load_save_same in Hin. rewrite Forall_forall in Hdata. by apply Hdata.
  - rewrite load_save_other in Hin by done. by eapply Hst.
Qed.

(** An item made by an add operation at the readings [t1 ≤ t2]. *)
Lemma new_item_stamped (t1 t2 : Z) (it : item) :
  it !! "created_at" = Some (VStr (isoformat t1)) →
  it !! "updated_at" = Some (VStr (isoformat t2)) →
  (t1 ≤ t2)%Z → stamped_by t2 it.
Proof.
  intros Hc Hu Hle. exists t1, t2. unfold created_at, updated_at.
  rewrite Hc, Hu, !fromisoformat_isoformat. repeat split; [done|lia].
Qed.

Lemma appended_stamped (hi t1 t2 : Z) (st : kb) (p : path) (it : item) :
  kb_stamped_by hi st → (hi ≤ t1)%Z → (t1 ≤ t2)%Z →
  it !! "created_at" = Some (VStr (isoformat t1)) →
  it !! "updated_at" = Some (VStr (isoformat t2)) →
  kb_stamped_by t2 (_save_data st p (_load_data st p ++ [it])).
Proof.
  intros Hst H1 H2 Hc Hu. apply kb_stamped_by_save.
  - apply (kb_stamped_by_mono hi); [lia | done].
  - apply Forall_app. split.
    + apply Forall_forall. intros x Hx. apply (stamped_by_mono hi); [lia|]. by eapply Hst.
    + constructor; [by apply (new_item_stamped t1 t2) | constructor].
Qed.

(** The item an update changes keeps its [created_at] when the update does
    not name it, and gets the new reading as [updated_at]. *)
Lemma updated_item_stamped (hi now : Z) (updates : gmap string value) (it : item) :
  updates !! "created_at" = None → (hi ≤ now)%Z → stamped_by hi it →
  stamped_by now (<["updated_at" := VStr (isoformat now)]> (set_fields updates it)).
Proof.
  intros Hkeep Hle (c & u & Hc & Hu & Hcu & Huh). exists c, now.
  unfold created_at, updated_at in *.
  rewrite lookup_insert_eq, lookup_insert_ne, set_fields_lookup, Hkeep by done.
  rewrite fromisoformat_isoformat. split; [|repeat split; lia].
  destruct (it !! "created_at"); [done|discriminate].
Qed.

Lemma update_first_stamped (hi now : Z) (item_id : string) (updates : gmap string value)
    (items items' : list item) :
  updates !! "created_at" = None → (hi ≤ now)%Z →
  Forall (stamped_by hi) items →
  update_first item_id updates now items = Some (Some items') →
  Forall (stamped_by now) items'.
Proof.
  intros Hkeep Hle Hitems. revert items'.
  induction Hitems as [|it items Hit Hitems IH]; intros items'; simpl; [done|].
  destruct (it !! "id") as [v|]; simpl; [|done].
  destruct (eq_str v item_id).
  - intros [= <-]. constructor; [by apply (updated_item_stamped hi)|].
    eapply Forall_impl; [exact Hitems|]. intros x. by apply stamped_by_mono.
  - destruct (update_first item_id updates now items) as [[items''|]|]; simpl; [|done..].
    intros [= <-]. constructor; [by apply (stamped_by_mono hi) | by apply IH].
Qed.

Lemma without_id_stamped (hi : Z) (item_id : string) (items items' : list item) :
  Forall (stamped_by hi) items →
  without_id item_id items = Some items' →
  Forall (stamped_by hi) items'.
Proof.
  intros Hitems. revert items'.
  induction Hitems as [|it items Hit Hitems IH]; intros items'; simpl; [by intros [= <-]|].
  destruct (it !! "id") as [v|]; simpl; [|done].
  destruct (without_id item_id items) as [kept|]; simpl; [|done].
  intros [= <-]. destruct (eq_str v item_id); [by apply IH | constructor; by auto].
Qed.

(** One call keeps the store stamped, by its last reading. *)
Lemma step_stamped (hi : Z) (st : kb) (c : call) :
  kb_stamped_by hi st → keeps_created_at c →
  StronglySorted Z.le (hi :: readings c) →
  kb_stamped_by (List.last (readings c) hi) (step st c)
  ∧ (hi ≤ List.last (readings c) hi)%Z.
Proof.
  intros Hst Hkeep Hsorted.
  assert (Hload : ∀ p, Forall (stamped_by hi) (_load_data st p)).
  { intros p. apply Forall_forall. intros it Hin. by eapply Hst. }
  destruct c as [i t1 t2 title content tags tickers
                |i t1 t2 title url summary content tags tickers
                |i t1 t2 title content source tags tickers
                |i updates kind now
                |i kind]; simpl in Hsorted, Hkeep; cbn [readings List.last].
  1-3: apply StronglySorted_cons in Hsorted as [Hhi Hsorted];
       apply StronglySorted_cons in Hsorted as [H12 _];
       apply Forall_cons in Hhi as [Hhi _]; apply Forall_cons in H12 as [H12 _];
       (split; [|lia]);
       cbv beta zeta iota delta [step add_note add_article add_research snd];
       by apply (appended_stamped hi t1 t2).
  - apply StronglySorted_cons in Hsorted as [Hhi _]. apply Forall_cons in Hhi as [Hhi _].
    split; [|done]. unfold step, update_item.
    destruct (file_path kind) as [p|]; simpl; [|by apply (kb_stamped_by_mono hi)].
    destruct (update_first i updates now (_load_data st p)) as [[items'|]|] eqn:Hu; simpl;
      [|by apply (kb_stamped_by_mono hi)..].
    apply kb_stamped_by_save; [by apply (kb_stamped_by_mono hi)|].
    by apply (update_first_stamped hi now i updates (_load_data st p)).
  - split; [|done]. unfold step, delete_item.
    destruct (file_path kind) as [p|]; simpl; [|done].
    destruct (without_id i (_load_data st p)) as [items'|] eqn:Hw; simpl; [|done].
    destruct (length items' <? length (_load_data st p))%nat; simpl; [|done].
    apply kb_stamped_by_save; [done|]. by apply (without_id_stamped hi i (_load_data st p)).
Qed.

Lemma run_stamped (cs : list call) (hi : Z) (st : kb) :
  kb_stamped_by hi st → Forall keeps_created_at cs →
  StronglySorted Z.le (hi :: cs ≫= readings) →
  ∃ hi', kb_stamped_by hi' (run st cs).
Proof.
  revert hi st. induction cs as [|c cs IH]; intros hi st Hst Hkeep Hsorted; simpl.
  - by exists hi.
  - inversion_clear Hkeep as [|? ? Hc Hcs].
    rewrite bind_cons, app_comm_cons in Hsorted.
    apply StronglySorted_app in Hsorted as (Hcross & Hl & Hr).
    destruct (step_stamped hi st c Hst Hc Hl) as [Hst' Hle].
    apply (IH (List.last (readings c) hi) (step st c) Hst' Hcs).
    apply StronglySorted_cons. split; [|done].
    apply Forall_forall. intros t Ht. apply Hcross; [|done]. apply last_elem_of.
Qed.
End timestamps.

Lemma create_knowledge_base_empty (p : path) : _load_data create_knowledge_base p = [].
Proof. by destruct p. Qed.

(** C8, as the code has it.  Start from a fresh knowledge base and let the
    clock never go back.  After any sequence of add, update and delete
    calls in which no update names [created_at], every stored item has
    [created_at] no later than [updated_at]. *)
Theorem created_before_updated `{Datetime} (cs : list call) :
  StronglySorted Z.le (cs ≫= readings) →
  Forall keeps_created_at cs →
  Forall timestamps_ordered (get_all_items (run create_knowledge_base cs) "all").
Proof.
  intros Hsorted Hkeep. apply Forall_forall. intros it Hin.
  set (hi := default 0%Z (head (cs ≫= readings))).
  destruct (run_stamped cs hi create_knowledge_base) as (hi' & Hst).
  - intros p x Hx. rewrite create_knowledge_base_empty in Hx. by apply elem_of_nil in Hx.
  - done.
  - unfold hi. destruct (cs ≫= readings) as [|t ts]; simpl; [repeat constructor|].
    constructor; [done|]. apply StronglySorted_cons in Hsorted as [Ht _].
    constructor; [lia | done].
  - apply elem_of_get_all_items in Hin as (p & Hp).
    destruct (Hst p it Hp) as (c & u & Hc & Hu & Hcu & _). by exists c, u.
Qed.

Lemma created_before_updated_witness :
  Forall timestamps_ordered (get_all_items (run create_knowledge_base tagging) "all").
Proof.
  apply (created_before_updated tagging).
  - simpl. repeat constructor; by vm_compute.
  - repeat constructor.
Defined.

(** C8 as the spec states it fails: with the clock going forward, an update
    that names [created_at] leaves the note created at day 100 and updated
    at day 10. *)
Lemma update_can_backdate :
  StronglySorted Z.le (backdating ≫= readings)
  ∧ created_at <$> get_all_items (run create_knowledge_base backdating) "all"
    = [Some (100 * day)%Z]
  ∧ updated_at <$> get_all_items (run create_knowledge_base backdating) "all"
    = [Some (10 * day)%Z]
  ∧ (10 * day < 100 * day)%Z.
Proof.
  split; [simpl; repeat constructor; by vm_compute|].
  repeat split; vm_compute; reflexivity.
Qed.

(** ** Items have ids

    Every item the add operations make has the key ['id'], an update never
    removes a key and a deletion only drops items: in every store reached
    from a fresh one, [x['id']] does not raise. *)
Section keyed.
Context `{Datetime} `{Str}.

Lemma set_fields_keeps_key (updates : gmap string value) (it : item) (k : string) :
  is_Some (it !! k) → is_Some (set_fields updates it !! k).
Proof. intros [v Hv]. rewrite set_fields_lookup, Hv. eauto. Qed.

Lemma update_first_keyed (item_id : string) (updates : gmap string value) (now : Z)
    (items items' : list item) :
  keyed items → update_first item_id updates now items = Some (Some items') → keyed items'.
Proof.
  intros Hk. revert items'.
  induction Hk as [|it items Hit Hk IH]; intros items'; simpl; [done|].
  destruct (it !! "id") as [v|] eqn:Hv; simpl; [|done].
  destruct (eq_str v item_id).
  - intros [= <-]. constructor; [|done].
    rewrite lookup_insert_ne by done. apply set_fields_keeps_key. by rewrite Hv.
  - destruct (update_first item_id updates now items) as [[items''|]|]; simpl; [|done..].
    intros [= <-]. constructor; [by rewrite Hv | by apply IH].
Qed.

Lemma step_keyed (st : kb) (c : call) :
  (∀ p, keyed (_load_data st p)) → ∀ p, keyed (_load_data (step st c) p).
Proof.
  intros Hst q.
  assert (Hsave : ∀ p data, keyed data → keyed (_load_data (_save_data st p data) q)).
  { intros p data Hd. destruct (decide (q = p)) as [->|Hne].
    - by rewrite load_save_same.
    - by rewrite load_save_other. }
  destruct c as [i t1 t2 title content tags tickers
                |i t1 t2 title url summary content tags tickers
                |i t1 t2 title content source tags tickers
                |i updates kind now
                |i kind].
  1-3: cbv beta zeta iota delta [step add_note add_article add_research snd];
       apply Hsave, Forall_app; (split; [apply Hst|]);
       (constructor; [by eexists | constructor]).
  - unfold step, update_item. destruct (file_path kind) as [p|]; simpl; [|done].
    destruct (update_first i updates now (_load_data st p)) as [[items'|]|] eqn:Hu;
      simpl; [|done..].
    apply Hsave. by apply (update_first_keyed i updates now (_load_data st p)).
  - unfold step, delete_item. destruct (file_path kind) as [p|]; simpl; [|done].
    destruct (decide (keyed (_load_data st p))) as [Hk|Hk]; [|by destruct (Hk (Hst p))].
    rewrite (without_id_filter _ _ Hk).
    destruct (_ <? _)%nat; simpl; [|done].
    apply Hsave, Forall_forall. intros it Hin.
    apply list_elem_of_filter in Hin as [_ Hin].
    unfold keyed in Hk. rewrite Forall_forall in Hk. by apply Hk.
Qed.

Lemma run_keyed (cs : list call) : keyed (get_all_items (run create_knowledge_base cs) "all").
Proof.
  assert (Hrun : ∀ st, (∀ p, keyed (_load_data st p)) → ∀ p, keyed (_load_data (run st cs) p)).
  { induction cs as [|c cs IH]; intros st Hst; simpl; [done|]. by apply IH, step_keyed. }
  apply Forall_forall. intros it Hin.
  apply elem_of_get_all_items in Hin as (p & Hp).
  specialize (Hrun create_knowledge_base). unfold keyed in Hrun.
  setoid_rewrite Forall_forall in Hrun. apply (Hrun ltac:(by intros [] ? ?%elem_of_nil) p it Hp).
Qed.
End keyed.

(** * Further properties of the knowledge base *)

(** ** Opening a store *)

(** [_init_storage] creates the files that are missing and leaves the
    others alone, so opening a knowledge base again loads what was there;
    doing it twice changes nothing more. *)
Theorem _init_storage_keeps_data (st : kb) :
  (∀ p, read (_init_storage st) p
        = match read st p with Missing => Data [] | f => f end)
  ∧ (∀ p, _load_data (_init_storage st) p = _load_data st p)
  ∧ _init_storage (_init_storage st) = _init_storage st.
Proof.
  destruct st as [[| |ns] [| |as'] [| |rs]];
    (split; [|split]); try (intros []); reflexivity.
Qed.

(** ** What update and delete do, whatever the store *)

Section shapes.
Context `{Datetime} `{Str}.

(** When the loop of [update_item] returns a list, it met an item with the
    id after items that have other ids, and changed that item only. *)
Lemma update_first_inv (item_id : string) (updates : gmap string value) (now : Z)
    (items items' : list item) :
  update_first item_id updates now items = Some (Some items') →
  ∃ pre it post,
    items = pre ++ it :: post
    ∧ items' = pre ++ <["updated_at" := VStr (isoformat now)]> (set_fields updates it) :: post
    ∧ has_id item_id it ∧ keyed pre ∧ Forall (λ x, ¬ has_id item_id x) pre.
Proof.
  revert items'. induction items as [|x items IH]; intros items'; simpl; [done|].
  destruct (x !! "id") as [v|] eqn:Hv; simpl; [|done].
  destruct (eq_str v item_id) eqn:He.
  - intros [= <-]. exists [], x, items. repeat split; [|constructor..].
    by apply (has_id_eq_str x item_id v).
  - destruct (update_first item_id updates now items) as [[items''|]|]; simpl; [|done..].
    intros [= <-]. destruct (IH items'' eq_refl) as (pre & it & post & -> & -> & Hid & Hk & Hno).
    exists (x :: pre), it, post. repeat split; [done|..].
    + constructor; [by rewrite Hv | done].
    + constructor; [|done]. rewrite <-(has_id_eq_str x item_id v) by done. by rewrite He.
Qed.

(** Without an item with the id, the comprehension of [delete_item] keeps
    every item, when it does not raise. *)
Lemma without_id_absent (item_id : string) (items : list item) :
  Forall (λ x, ¬ has_id item_id x) items →
  without_id item_id items = None ∨ without_id item_id items = Some items.
Proof.
  induction 1 as [|x items Hx _ IH]; simpl; [by right|].
  destruct (x !! "id") as [v|] eqn:Hv; simpl; [|by left].
  destruct IH as [-> | ->]; simpl; [by left|]. right.
  destruct (eq_str v item_id) eqn:He; [|done].
  destruct Hx. by apply (has_id_eq_str x item_id v).
Qed.

(** The comprehension never returns more than it was given. *)
Lemma without_id_sublist (item_id : string) (items kept : list item) :
  without_id item_id items = Some kept → kept `sublist_of` items.
Proof.
  revert kept. induction items as [|x items IH]; intros kept; simpl.
  - by intros [= <-].
  - destruct (x !! "id") as [v|]; simpl; [|done].
    destruct (without_id item_id items) as [kept'|]; simpl; [|done].
    intros [= <-]. destruct (eq_str v item_id).
    + by apply sublist_cons, IH.
    + by apply sublist_skip, IH.
Qed.
End shapes.

(** ** Absent ids and other collections *)

Lemma first_with_id (item_id : string) (items : list item) (it : item) :
  head (filter (has_id item_id) items) = Some it →
  ∃ pre post, items = pre ++ it :: post
              ∧ Forall (λ x, ¬ has_id item_id x) pre ∧ has_id item_id it.
Proof.
  induction items as [|x items IH]; [done|]. rewrite filter_cons.
  destruct (decide (has_id item_id x)) as [Hx|Hx].
  - intros [= <-]. exists [], items. by repeat split.
  - intros Hhead. destruct (IH Hhead) as (pre & post & -> & Hpre & Hit).
    exists (x :: pre), post. repeat split; [|done]. by constructor.
Qed.

Lemma head_filter_first (item_id : string) (pre post : list item) (it : item) :
  Forall (λ x, ¬ has_id item_id x) pre → has_id item_id it →
  head (filter (has_id item_id) (pre ++ it :: post)) = Some it.
Proof.
  intros Hpre Hit. induction Hpre as [|x pre Hx _ IH]; simpl.
  - by rewrite filter_cons_True.
  - by rewrite filter_cons_False.
Qed.

(** Asking to update or delete an id the collection does not hold returns
    False and leaves the store as it was, whether or not the items have
    ids. *)
Theorem absent_id_rejected `{Datetime} (st : kb) (item_id : string)
    (updates : gmap string value) (kind : string) (now : Z) (p : path) :
  file_path kind = Some p →
  Forall (λ it, ¬ has_id item_id it) (_load_data st p) →
  update_item st item_id updates kind now = (false, st)
  ∧ delete_item st item_id kind = (false, st).
Proof.
  intros Hp Hno. unfold update_item, delete_item. rewrite Hp. split.
  - by destruct (update_first_not_found item_id updates now _ Hno) as [-> | ->].
  - destruct (without_id_absent item_id _ Hno) as [-> | ->]; [done|].
    by rewrite Nat.ltb_irrefl.
Qed.

Lemma absent_id_rejected_witness :
  update_item sample_kb "zz" {["title" := VStr "x"]} "notes" (10 * day) = (false, sample_kb)
  ∧ delete_item sample_kb "zz" "notes" = (false, sample_kb).
Proof.
  apply (absent_id_rejected sample_kb "zz" {["title" := VStr "x"]} "notes" (10 * day)%Z
           NotesFile).
  - reflexivity.
  - repeat constructor. by vm_compute.
Defined.

(** [update_item] and [delete_item] write no file but the one of the kind
    they are given. *)
Theorem other_files_untouched `{Datetime} (st : kb) (item_id : string)
    (updates : gmap string value) (kind : string) (now : Z) (q : path) :
  file_path kind ≠ Some q →
  read (update_item st item_id updates kind now).2 q = read st q
  ∧ read (delete_item st item_id kind).2 q = read st q.
Proof.
  intros Hq. unfold update_item, delete_item.
  destruct (file_path kind) as [p|]; [|done].
  assert (q ≠ p) as Hne by congruence.
  assert (∀ data, read (_save_data st p data) q = read st q) as Hsave
    by (intros data; by destruct p, q).
  split.
  - destruct (update_first _ _ _ _) as [[items'|]|]; simpl; [apply Hsave | done..].
  - destruct (without_id _ _) as [kept|]; [|done].
    destruct (_ <? _)%nat; simpl; [apply Hsave | done].
Qed.

Lemma other_files_untouched_witness :
  read (update_item test_kb "n1" {["title" := VStr "x"]} "notes" (10 * day)).2 ArticlesFile
    = read test_kb ArticlesFile
  ∧ read (delete_item test_kb "n1" "notes").2 ArticlesFile = read test_kb ArticlesFile.
Proof.
  apply (other_files_untouched test_kb "n1" {["title" := VStr "x"]} "notes" (10 * day)%Z
           ArticlesFile).
  discriminate.
Defined.

(** ** Updating, seen from outside *)

(** In a collection whose items have ids, [update_item] returns True
    exactly when an item has the id.  It never changes the number of items,
    and when the update does not name ['id'] the ids stay as they were, in
    the same order. *)
Theorem update_item_found_iff `{Datetime} (st : kb) (item_id : string)
    (updates : gmap string value) (kind : string) (now : Z) (p : path) :
  file_path kind = Some p → keyed (_load_data st p) →
  ((update_item st item_id updates kind now).1 = true
   ↔ Exists (has_id item_id) (_load_data st p))
  ∧ length (_load_data (update_item st item_id updates kind now).2 p)
    = length (_load_data st p)
  ∧ (updates !! "id" = None →
     ids (_load_data (update_item st item_id updates kind now).2 p)
     = ids (_load_data st p)).
Proof.
  intros Hp Hk. unfold update_item. rewrite Hp.
  destruct (update_first item_id updates now (_load_data st p)) as [[items'|]|] eqn:Hu;
    simpl.
  - apply update_first_inv in Hu as (pre & it & post & Hitems & -> & Hid & _ & _).
    rewrite load_save_same, Hitems. split; [|split].
    + split; [intros _ | done]. apply Exists_app. right. by constructor.
    + by rewrite !length_app.
    + intros Hkeep. unfold ids. rewrite !fmap_app, !fmap_cons. do 2 f_equal.
      by rewrite lookup_insert_ne, set_fields_lookup, Hkeep, Hid.
  - split; [|done]. split; [done|]. intros Hex. exfalso.
    destruct (decide (head (filter (has_id item_id) (_load_data st p)) = None)) as [Hn|Hs].
    + apply head_None in Hn. apply Exists_exists in Hex as (x & Hx & Hid).
      assert (x ∈ filter (has_id item_id) (_load_data st p)) as Hin
        by by apply list_elem_of_filter.
      rewrite Hn in Hin. by apply elem_of_nil in Hin.
    + destruct (head _) as [it|] eqn:Hhead; [|done].
      apply first_with_id in Hhead as (pre & post & Hitems & Hpre & Hit).
      rewrite Hitems in Hu, Hk. apply Forall_app in Hk as [Hkpre _].
      by rewrite (update_first_found _ _ _ _ _ _ Hkpre Hpre Hit) in Hu.
  - exfalso. clear Hp. induction Hk as [|x items [v Hv] _ IH]; simpl in Hu; [done|].
    rewrite Hv in Hu. simpl in Hu. destruct (eq_str v item_id); [done|].
    destruct (update_first item_id updates now items) as [[?|]|]; [done..|by apply IH].
Qed.

Lemma update_item_found_iff_witness :
  ((update_item sample_kb "n1" {["tags" := VList ["x"]]} "notes" (10 * day)).1 = true
   ↔ Exists (has_id "n1") (_load_data sample_kb NotesFile))
  ∧ length (_load_data (update_item sample_kb "n1" {["tags" := VList ["x"]]} "notes"
                          (10 * day)).2 NotesFile)
    = length (_load_data sample_kb NotesFile)
  ∧ (({["tags" := VList ["x"]]} : gmap string value) !! "id" = None →
     ids (_load_data (update_item sample_kb "n1" {["tags" := VList ["x"]]} "notes"
                        (10 * day)).2 NotesFile)
     = ids (_load_data sample_kb NotesFile)).
Proof.
  apply (update_item_found_iff sample_kb "n1" {["tags" := VList ["x"]]} "notes" (10 * day)%Z
           NotesFile).
  - reflexivity.
  - repeat constructor; by eexists.
Defined.

(** ** Getting, composed with the writes *)

(** [get_item] on one collection whose items have ids. *)
Lemma get_item_kind (st : kb) (item_id kind : string) (p : path) :
  file_path kind = Some p → keyed (_load_data st p) →
  get_item st item_id (Some kind) = head (filter (has_id item_id) (_load_data st p)).
Proof.
  intros Hp Hk. apply file_path_all_collections in Hp.
  unfold all_collections in Hp. rewrite !elem_of_cons, elem_of_nil in Hp.
  unfold get_item, get_item_try.
  destruct Hp as [[= -> ->]|[[= -> ->]|[[= -> ->]|[]]]]; simpl;
    rewrite find_id_first by done; simpl; by destruct (head _).
Qed.

(** [get_item] without a kind, on a store whose items have ids. *)
Lemma get_item_all (st : kb) (item_id : string) :
  keyed (_load_data st NotesFile) → keyed (_load_data st ArticlesFile) →
  keyed (_load_data st ResearchFile) →
  get_item st item_id None
  = head (filter (has_id item_id) (_load_data st NotesFile)
          ++ filter (has_id item_id) (_load_data st ArticlesFile)
          ++ filter (has_id item_id) (_load_data st ResearchFile)).
Proof.
  intros Hn Ha Hr. unfold get_item, get_item_try. simpl.
  rewrite !find_id_first by done. rewrite !head_app. simpl.
  destruct (head (filter _ (_load_data st NotesFile))); [done|]. simpl.
  by destruct (head (filter _ (_load_data st ArticlesFile))).
Qed.

(** Whatever the store holds, [get_item] returns nothing but a stored item
    that carries the id asked for. *)
Theorem get_item_sound (st : kb) (item_id : string) (kind : option string) :
  match get_item st item_id kind with
  | Some it => has_id item_id it ∧ it ∈ get_all_items st "all"
  | None => True
  end.
Proof.
  assert (Hfind : ∀ items it, find_id item_id items = Some (Some it) →
                    has_id item_id it ∧ it ∈ items).
  { induction items as [|x items IH]; intros it; simpl; [done|].
    destruct (x !! "id") as [v|] eqn:Hv; simpl; [|done].
    destruct (eq_str v item_id) eqn:He.
    - intros [= <-]. split; [by apply (has_id_eq_str x item_id v) | by left].
    - intros Hf. destruct (IH it Hf). split; [done | by right]. }
  unfold get_item.
  destruct (get_item_try st item_id kind) as [[it|]|] eqn:Hg; [|done..].
  assert (Hin : ∃ p, find_id item_id (_load_data st p) = Some (Some it)).
  { unfold get_item_try in Hg.
    destruct (bool_decide (kind = Some "notes") || bool_decide (kind = None));
      destruct (bool_decide (kind = Some "articles") || bool_decide (kind = None));
      destruct (bool_decide (kind = Some "research") || bool_decide (kind = None));
      repeat match type of Hg with
             | context [find_id item_id (_load_data st ?q)] =>
                 let Hq := fresh "Hq" in
                 destruct (find_id item_id (_load_data st q)) as [[?|]|] eqn:Hq;
                 simpl in Hg
             end;
      simplify_eq; eauto. }
  destruct Hin as (p & Hf). destruct (Hfind _ _ Hf) as [Hid Hit].
  split; [done|]. apply elem_of_get_all_items. by exists p.
Qed.

Section round_trips.
Context `{Datetime} `{Str}.

(** Appending an item with a fresh id to a collection: it is what
    [get_item] then returns for that id, with the kind or without. *)
Lemma get_item_appended (st : kb) (item_id kind : string) (p : path) (r : item) :
  file_path kind = Some p →
  keyed (get_all_items st "all") →
  Forall (λ it, ¬ has_id item_id it) (get_all_items st "all") →
  has_id item_id r →
  get_item (_save_data st p (_load_data st p ++ [r])) item_id None = Some r
  ∧ get_item (_save_data st p (_load_data st p ++ [r])) item_id (Some kind) = Some r.
Proof.
  intros Hp Hk Hno Hr.
  change (get_all_items st "all")
    with ((_load_data st NotesFile ++ _load_data st ArticlesFile)
          ++ _load_data st ResearchFile) in *.
  apply Forall_app in Hk as [Hk Hkr]. apply Forall_app in Hk as [Hkn Hka].
  apply Forall_app in Hno as [Hno Hnr]. apply Forall_app in Hno as [Hnn Hna].
  assert (Hkey : is_Some (r !! "id")) by (rewrite Hr; eauto).
  assert (Hnew : ∀ l, keyed l → keyed (l ++ [r]))
    by (intros l Hl; apply Forall_app; split; [done | by repeat constructor]).
  assert (Hnone : ∀ l, Forall (λ it, ¬ has_id item_id it) l →
                    head (filter (has_id item_id) l) = None).
  { intros l Hl. apply head_None, elem_of_nil_inv. intros x Hx.
    apply list_elem_of_filter in Hx as [Hid Hx]. rewrite Forall_forall in Hl.
    by apply (Hl x). }
  assert (Hlast : ∀ l, Forall (λ it, ¬ has_id item_id it) l →
                    head (filter (has_id item_id) (l ++ [r])) = Some r)
    by (intros l Hl; by apply head_filter_first).
  assert (Hempty : ∀ l, Forall (λ it, ¬ has_id item_id it) l →
                     filter (has_id item_id) l = [])
    by (intros l Hl; by apply head_None, Hnone).
  split.
  - rewrite get_item_all;
      destruct p; rewrite ?load_save_same, ?load_save_other by done; auto.
    + by rewrite head_app, Hlast.
    + by rewrite (Hempty _ Hnn), app_nil_l, head_app, Hlast.
    + by rewrite (Hempty _ Hnn), (Hempty _ Hna), !app_nil_l, Hlast.
  - rewrite (get_item_kind _ _ kind p Hp); rewrite load_save_same.
    + apply Hlast. by destruct p.
    + apply Hnew. by destruct p.
Qed.

(** Round trip: in a store whose items have ids, none of them the fresh
    one, the record an add operation stores is the one [get_item] returns
    for the new id, with the fields the call was given. *)
Theorem add_then_get (st : kb) (i : string) (t1 t2 : Z)
    (title content url summary source : value) (tags tickers : option (list string)) :
  keyed (get_all_items st "all") →
  Forall (λ it, ¬ has_id i it) (get_all_items st "all") →
  (∃ r, get_item (add_note st i t1 t2 title content tags tickers).2 i None = Some r
        ∧ get_item (add_note st i t1 t2 title content tags tickers).2 i (Some "notes") = Some r
        ∧ r !! "title" = Some title ∧ r !! "content" = Some content
        ∧ r !! "tags" = Some (VList (default [] tags))
        ∧ r !! "related_tickers" = Some (VList (default [] tickers)))
  ∧ (∃ r, get_item (add_article st i t1 t2 title url summary content tags tickers).2 i None
          = Some r
        ∧ get_item (add_article st i t1 t2 title url summary content tags tickers).2 i
            (Some "articles") = Some r
        ∧ r !! "title" = Some title ∧ r !! "url" = Some url
        ∧ r !! "summary" = Some summary ∧ r !! "content" = Some content
        ∧ r !! "tags" = Some (VList (default [] tags))
        ∧ r !! "related_tickers" = Some (VList (default [] tickers)))
  ∧ (∃ r, get_item (add_research st i t1 t2 title content source tags tickers).2 i None
          = Some r
        ∧ get_item (add_research st i t1 t2 title content source tags tickers).2 i
            (Some "research") = Some r
        ∧ r !! "title" = Some title ∧ r !! "content" = Some content
        ∧ r !! "source" = Some source
        ∧ r !! "tags" = Some (VList (default [] tags))
        ∧ r !! "related_tickers" = Some (VList (default [] tickers))).
Proof.
  intros Hk Hno.
  split; [|split]; eexists;
    cbv beta zeta iota delta [add_note add_article add_research snd].
  - split; [by apply (get_item_appended st i "notes" NotesFile)|].
    split; [by apply (get_item_appended st i "notes" NotesFile)|]. by repeat split.
  - split; [by apply (get_item_appended st i "articles" ArticlesFile)|].
    split; [by apply (get_item_appended st i "articles" ArticlesFile)|]. by repeat split.
  - split; [by apply (get_item_appended st i "research" ResearchFile)|].
    split; [by apply (get_item_appended st i "research" ResearchFile)|]. by repeat split.
Qed.
End round_trips.

Lemma add_then_get_witness :
  (∃ r, get_item (add_note sample_kb "n2" 0 1 (VStr "T") (VStr "c") None None).2 "n2" None
        = Some r
        ∧ get_item (add_note sample_kb "n2" 0 1 (VStr "T") (VStr "c") None None).2 "n2"
            (Some "notes") = Some r
        ∧ r !! "title" = Some (VStr "T") ∧ r !! "content" = Some (VStr "c")
        ∧ r !! "tags" = Some (VList (default [] None))
        ∧ r !! "related_tickers" = Some (VList (default [] None)))
  ∧ (∃ r, get_item (add_article sample_kb "n2" 0 1 (VStr "T") (VStr "u") VNone (VStr "c")
                      None None).2 "n2" None
          = Some r
        ∧ get_item (add_article sample_kb "n2" 0 1 (VStr "T") (VStr "u") VNone (VStr "c")
                      None None).2 "n2" (Some "articles") = Some r
        ∧ r !! "title" = Some (VStr "T") ∧ r !! "url" = Some (VStr "u")
        ∧ r !! "summary" = Some VNone ∧ r !! "content" = Some (VStr "c")
        ∧ r !! "tags" = Some (VList (default [] None))
        ∧ r !! "related_tickers" = Some (VList (default [] None)))
  ∧ (∃ r, get_item (add_research sample_kb "n2" 0 1 (VStr "T") (VStr "c") VNone
                      None None).2 "n2" None
          = Some r
        ∧ get_item (add_research sample_kb "n2" 0 1 (VStr "T") (VStr "c") VNone
                      None None).2 "n2" (Some "research") = Some r
        ∧ r !! "title" = Some (VStr "T") ∧ r !! "content" = Some (VStr "c")
        ∧ r !! "source" = Some VNone
        ∧ r !! "tags" = Some (VList (default [] None))
        ∧ r !! "related_tickers" = Some (VList (default [] None))).
Proof.
  apply (add_then_get sample_kb "n2" 0 1 (VStr "T") (VStr "c") (VStr "u") VNone VNone
           None None).
  - repeat constructor; by eexists.
  - repeat constructor. by vm_compute.
Defined.

Section compositions.
Context `{Datetime} `{Str}.

(** Get, update, get: when [get_item] finds an item under the id and the
    update does not name ['id'], [update_item] returns True and [get_item]
    then returns that item as updated. *)
Theorem update_then_get (st : kb) (item_id : string) (updates : gmap string value)
    (kind : string) (now : Z) (p : path) (it : item) :
  file_path kind = Some p → keyed (_load_data st p) →
  updates !! "id" = None →
  get_item st item_id (Some kind) = Some it →
  (update_item st item_id updates kind now).1 = true
  ∧ get_item (update_item st item_id updates kind now).2 item_id (Some kind)
    = Some (updated updates now it).
Proof.
  intros Hp Hk Hkeep Hget. rewrite (get_item_kind _ _ _ p Hp Hk) in Hget.
  apply first_with_id in Hget as (pre & post & Hitems & Hpre & Hit).
  rewrite Hitems in Hk. pose proof Hk as Hk'. apply Forall_app in Hk' as [Hkpre Hkpost].
  unfold update_item. rewrite Hp, Hitems.
  rewrite (update_first_found _ _ _ _ _ _ Hkpre Hpre Hit). simpl. split; [done|].
  assert (Hit' : has_id item_id (updated updates now it)).
  { unfold has_id, updated. by rewrite lookup_insert_ne, set_fields_lookup, Hkeep, Hit. }
  rewrite (get_item_kind _ _ _ p Hp); rewrite load_save_same.
  - by apply head_filter_first.
  - apply Forall_app. split; [done|]. inversion_clear Hkpost.
    constructor; [|done]. rewrite Hit'. eauto.
Qed.

(** Appending an item with a fresh id and deleting that id gives back the
    collection. *)
Lemma delete_appended (st : kb) (item_id kind : string) (p : path) (r : item) :
  file_path kind = Some p → keyed (_load_data st p) →
  Forall (λ it, ¬ has_id item_id it) (_load_data st p) → has_id item_id r →
  ∃ st', delete_item (_save_data st p (_load_data st p ++ [r])) item_id kind = (true, st')
         ∧ ∀ q, _load_data st' q = _load_data st q.
Proof.
  intros Hp Hk Hno Hr. unfold delete_item. rewrite Hp, load_save_same.
  rewrite without_id_filter.
  - rewrite filter_app, (filter_keeps_all _ _ Hno), filter_cons_False, filter_nil, app_nil_r
      by (intros Hn; by apply Hn).
    rewrite length_app. simpl.
    destruct (Nat.ltb_spec (length (_load_data st p)) (length (_load_data st p) + 1));
      [|lia].
    eexists. split; [done|]. intros q. destruct (decide (q = p)) as [->|Hne].
    + by rewrite load_save_same.
    + by rewrite !load_save_other.
  - apply Forall_app. split; [done|]. constructor; [|constructor]. rewrite Hr. eauto.
Qed.

(** Add, then delete the new id: the call returns True and every
    collection loads as before the add (the collection of the kind must
    have ids on its items, none of them the new one). *)
Theorem add_then_delete (st : kb) (i : string) (t1 t2 : Z)
    (title content url summary source : value) (tags tickers : option (list string)) :
  Forall (λ p, keyed (_load_data st p) ∧ Forall (λ it, ¬ has_id i it) (_load_data st p))
    [NotesFile; ArticlesFile; ResearchFile] →
  (∃ st', delete_item (add_note st i t1 t2 title content tags tickers).2 i "notes"
            = (true, st')
          ∧ ∀ q, _load_data st' q = _load_data st q)
  ∧ (∃ st', delete_item (add_article st i t1 t2 title url summary content tags tickers).2
              i "articles" = (true, st')
            ∧ ∀ q, _load_data st' q = _load_data st q)
  ∧ (∃ st', delete_item (add_research st i t1 t2 title content source tags tickers).2
              i "research" = (true, st')
            ∧ ∀ q, _load_data st' q = _load_data st q).
Proof.
  intros Hall. rewrite !Forall_cons in Hall.
  destruct Hall as ([Hkn Hnn] & [Hka Hna] & [Hkr Hnr] & _).
  split; [|split]; cbv beta zeta iota delta [add_note add_article add_research snd].
  - by apply (delete_appended st i "notes" NotesFile).
  - by apply (delete_appended st i "articles" ArticlesFile).
  - by apply (delete_appended st i "research" ResearchFile).
Qed.
End compositions.

Lemma update_then_get_witness :
  (update_item sample_kb "n1" {["tags" := VList ["x"]]} "notes" (10 * day)).1 = true
  ∧ get_item (update_item sample_kb "n1" {["tags" := VList ["x"]]} "notes" (10 * day)).2
      "n1" (Some "notes")
    = Some (updated {["tags" := VList ["x"]]} (10 * day) sample_note).
Proof.
  apply (update_then_get sample_kb "n1" {["tags" := VList ["x"]]} "notes" (10 * day)%Z
           NotesFile sample_note).
  - reflexivity.
  - repeat constructor; by eexists.
  - reflexivity.
  - reflexivity.
Defined.

Lemma add_then_delete_witness :
  (∃ st', delete_item (add_note sample_kb "n2" 0 1 (VStr "T") (VStr "c") None None).2
            "n2" "notes" = (true, st')
          ∧ ∀ q, _load_data st' q = _load_data sample_kb q)
  ∧ (∃ st', delete_item (add_article sample_kb "n2" 0 1 (VStr "T") (VStr "u") VNone
                           (VStr "c") None None).2 "n2" "articles" = (true, st')
            ∧ ∀ q, _load_data st' q = _load_data sample_kb q)
  ∧ (∃ st', delete_item (add_research sample_kb "n2" 0 1 (VStr "T") (VStr "c") VNone
                           None None).2 "n2" "research" = (true, st')
            ∧ ∀ q, _load_data st' q = _load_data sample_kb q).
Proof.
  apply (add_then_delete sample_kb "n2" 0 1 (VStr "T") (VStr "c") (VStr "u") VNone VNone
           None None).
  repeat constructor; try (by eexists); by vm_compute.
Defined.

(** ** What every reachable store satisfies *)

Lemma sublist_ids (l1 l2 : list item) : l1 `sublist_of` l2 → ids l1 `sublist_of` ids l2.
Proof.
  unfold ids. induction 1; simpl; [constructor | by apply sublist_skip | by apply sublist_cons].
Qed.

Section reachable.
Context `{Datetime} `{Str}.

(** One call keeps a property of the items of each collection when the
    items it adds have it and the item an update changes keeps it.  The
    items a call adds are those it leaves in an empty store. *)
Lemma step_Forall (Q : path → item → Prop) (st : kb) (c : call) :
  (∀ p, Forall (Q p) (_load_data st p)) →
  (∀ p, Forall (Q p) (_load_data (step empty_kb c) p)) →
  (∀ i u k now p it, c = UpdateItem i u k now → file_path k = Some p →
     has_id i it → Q p it → Q p (updated u now it)) →
  ∀ p, Forall (Q p) (_load_data (step st c) p).
Proof.
  intros Hst Hnew Hupd q.
  assert (Hsave : ∀ p data, Forall (Q p) data →
                    Forall (Q q) (_load_data (_save_data st p data) q)).
  { intros p data Hd. destruct (decide (q = p)) as [->|Hne].
    - by rewrite load_save_same.
    - rewrite load_save_other by done. apply Hst. }
  destruct c as [i t1 t2 title content tags tickers
                |i t1 t2 title url summary content tags tickers
                |i t1 t2 title content source tags tickers
                |i updates kind now
                |i kind].
  - apply (Hsave NotesFile), Forall_app. split; [apply Hst | exact (Hnew NotesFile)].
  - apply (Hsave ArticlesFile), Forall_app. split; [apply Hst | exact (Hnew ArticlesFile)].
  - apply (Hsave ResearchFile), Forall_app. split; [apply Hst | exact (Hnew ResearchFile)].
  - unfold step, update_item. destruct (file_path kind) as [p|] eqn:Hp; simpl; [|apply Hst].
    destruct (update_first i updates now (_load_data st p)) as [[items'|]|] eqn:Hu;
      simpl; [|apply Hst..].
    apply (Hsave p).
    apply update_first_inv in Hu as (pre & it & post & Hitems & -> & Hid & _ & _).
    specialize (Hst p). rewrite Hitems in Hst.
    apply Forall_app in Hst as [Hpre Hpost]. inversion_clear Hpost as [|? ? Hit Hpost'].
    apply Forall_app. split; [done|]. constructor; [|done]. by eapply Hupd.
  - unfold step, delete_item. destruct (file_path kind) as [p|]; simpl; [|apply Hst].
    destruct (without_id i (_load_data st p)) as [kept|] eqn:Hw; simpl; [|apply Hst].
    destruct (_ <? _)%nat; simpl; [|apply Hst].
    apply (Hsave p), Forall_forall. intros x Hx.
    specialize (Hst p). rewrite Forall_forall in Hst. apply Hst.
    eapply elem_of_sublist; [done|]. by eapply without_id_sublist.
Qed.

Lemma run_Forall (Q : path → item → Prop) (cs : list call) (st : kb) :
  (∀ p, Forall (Q p) (_load_data st p)) →
  Forall (λ c, (∀ p, Forall (Q p) (_load_data (step empty_kb c) p))
               ∧ ∀ i u k now p it, c = UpdateItem i u k now → file_path k = Some p →
                   has_id i it → Q p it → Q p (updated u now it)) cs →
  ∀ p, Forall (Q p) (_load_data (run st cs) p).
Proof.
  intros Hst Hcs. revert st Hst.
  induction Hcs as [|c cs [Hnew Hupd] _ IH]; intros st Hst; simpl; [done|].
  apply IH. by apply step_Forall.
Qed.

Lemma dom_set_fields (updates : gmap string value) (it : item) :
  dom (set_fields updates it) = dom it.
Proof.
  apply set_eq. intros k. rewrite !elem_of_dom, set_fields_lookup.
  destruct (it !! k); split; intros [? ?]; eauto; done.
Qed.

(** On the empty store an update or a deletion leaves every collection
    empty. *)
Lemma step_empty_kb (c : call) (q : path) :
  added_ids c = [] → _load_data (step empty_kb c) q = [].
Proof.
  destruct c; try done; intros _; unfold step, update_item, delete_item;
    destruct (file_path _) as [[]|]; by destruct q.
Qed.

(** Updates never add or remove a key and the search annotations are never
    saved: in every store reached from a fresh one, each item has exactly
    the keys its add operation gave it. *)
Theorem stored_items_keep_schema (cs : list call) (p : path) :
  Forall (λ it, dom it = schema p) (_load_data (run create_knowledge_base cs) p).
Proof.
  apply (run_Forall (λ p it, dom it = schema p)).
  - intros q. rewrite create_knowledge_base_empty. constructor.
  - apply Forall_forall. intros c _. split.
    + intros q. destruct (added_ids c) eqn:Hadd;
        [rewrite step_empty_kb by done; constructor|].
      destruct c, q; try done; unfold _load_data, read; simpl;
        first [ by apply Forall_nil
              | apply Forall_cons; split; [|by apply Forall_nil];
                by rewrite !dom_insert_L, dom_empty_L ].
    + intros i u k now q it _ _ _ Hdom. unfold updated.
      rewrite dom_insert_L, dom_set_fields, Hdom.
      apply subseteq_union_1_L, singleton_subseteq_l.
      destruct q; unfold schema; simpl; set_solver.
Qed.

(** The kind is fixed: as long as no update names ['type'], every item of
    a collection has the type of that collection. *)
Theorem kind_never_changes (cs : list call) :
  Forall (keeps "type") cs →
  Forall (λ p, Forall (λ it, it !! "type" = Some (VStr (kind_name p)))
                 (_load_data (run create_knowledge_base cs) p))
    [NotesFile; ArticlesFile; ResearchFile].
Proof.
  intros Hkeep.
  assert (Hall : ∀ p, Forall (λ it, it !! "type" = Some (VStr (kind_name p)))
                        (_load_data (run create_knowledge_base cs) p)).
  { apply (run_Forall (λ p it, it !! "type" = Some (VStr (kind_name p)))).
    - intros q. rewrite create_knowledge_base_empty. constructor.
    - eapply Forall_impl; [exact Hkeep|]. intros c Hc. split.
      + intros q. destruct (added_ids c) eqn:Hadd;
          [rewrite step_empty_kb by done; constructor|].
        destruct c, q; try done; unfold _load_data, read; simpl;
          first [ by apply Forall_nil
                | apply Forall_cons; split; [done | by apply Forall_nil] ].
      + intros i u k now q it -> _ _ Htype. simpl in Hc. unfold updated.
        by rewrite lookup_insert_ne, set_fields_lookup, Htype, Hc. }
  repeat constructor; apply Hall.
Qed.
End reachable.

Lemma kind_never_changes_witness :
  Forall (λ p, Forall (λ it, it !! "type" = Some (VStr (kind_name p)))
                 (_load_data (run create_knowledge_base tagging) p))
    [NotesFile; ArticlesFile; ResearchFile].
Proof.
  apply (kind_never_changes tagging). repeat constructor.
Defined.

(** ** Ids stay unique *)

Section unique_ids.
Context `{Datetime} `{Str}.

Lemma update_first_ids (item_id : string) (updates : gmap string value) (now : Z)
    (items items' : list item) :
  updates !! "id" = None →
  update_first item_id updates now items = Some (Some items') → ids items' = ids items.
Proof.
  intros Hkeep Hu.
  apply update_first_inv in Hu as (pre & it & post & -> & -> & Hid & _ & _).
  unfold ids. rewrite !fmap_app, !fmap_cons. do 2 f_equal.
  by rewrite lookup_insert_ne, set_fields_lookup, Hkeep, Hid.
Qed.

Lemma ids_all_save_sublist (st : kb) (p : path) (data : list item) :
  ids data `sublist_of` ids (_load_data st p) →
  ids (get_all_items (_save_data st p data) "all") `sublist_of` ids (get_all_items st "all").
Proof.
  intros Hsub.
  change (get_all_items (_save_data st p data) "all")
    with ((_load_data (_save_data st p data) NotesFile
           ++ _load_data (_save_data st p data) ArticlesFile)
          ++ _load_data (_save_data st p data) ResearchFile).
  change (get_all_items st "all")
    with ((_load_data st NotesFile ++ _load_data st ArticlesFile)
          ++ _load_data st ResearchFile).
  unfold ids in *. rewrite !fmap_app.
  destruct p; rewrite ?load_save_same, ?load_save_other by done;
    repeat apply sublist_app; done.
Qed.

Lemma ids_all_save_app (st : kb) (p : path) (r : item) :
  ids (get_all_items (_save_data st p (_load_data st p ++ [r])) "all")
  ≡ₚ r !! "id" :: ids (get_all_items st "all").
Proof.
  change (get_all_items (_save_data st p (_load_data st p ++ [r])) "all")
    with ((_load_data (_save_data st p (_load_data st p ++ [r])) NotesFile
           ++ _load_data (_save_data st p (_load_data st p ++ [r])) ArticlesFile)
          ++ _load_data (_save_data st p (_load_data st p ++ [r])) ResearchFile).
  change (get_all_items st "all")
    with ((_load_data st NotesFile ++ _load_data st ArticlesFile)
          ++ _load_data st ResearchFile).
  unfold ids. destruct p; rewrite ?load_save_same, ?load_save_other by done;
    rewrite !fmap_app; simpl.
  - rewrite <-!app_assoc. simpl. by rewrite <-Permutation_middle.
  - rewrite <-!app_assoc. simpl. by rewrite <-!Permutation_middle.
  - rewrite app_assoc. by rewrite <-Permutation_cons_append.
Qed.

Lemma ids_among_sublist (seen : list string) (items items' : list item) :
  ids items' `sublist_of` ids items → ids_among seen items → ids_among seen items'.
Proof.
  intros Hsub [Hnd Hall]. split; [by eapply sublist_NoDup|].
  rewrite Forall_forall in Hall. apply Forall_forall. intros v Hv.
  apply Hall. by eapply elem_of_sublist.
Qed.

Lemma ids_among_more (seen more : list string) (items : list item) :
  ids_among seen items → ids_among (seen ++ more) items.
Proof.
  intros [Hnd Hall]. split; [done|]. eapply Forall_impl; [exact Hall|].
  intros v (i & -> & Hi). exists i. split; [done|]. apply elem_of_app. by left.
Qed.

Lemma ids_among_added (seen : list string) (st : kb) (p : path) (r : item) (i : string) :
  r !! "id" = Some (VStr i) → i ∉ seen →
  ids_among seen (get_all_items st "all") →
  ids_among (seen ++ [i]) (get_all_items (_save_data st p (_load_data st p ++ [r])) "all").
Proof.
  intros Hr Hi [Hnd Hall]. unfold ids_among. rewrite ids_all_save_app, Hr. split.
  - apply NoDup_cons. split; [|done]. intros Hin.
    rewrite Forall_forall in Hall. destruct (Hall _ Hin) as (i' & [= <-] & Hi'). done.
  - constructor.
    + exists i. split; [done|]. apply elem_of_app. right. by left.
    + eapply Forall_impl; [exact Hall|].
      intros v (i' & -> & Hi'). exists i'. split; [done|]. apply elem_of_app. by left.
Qed.

Lemma step_ids_among (seen : list string) (st : kb) (c : call) :
  ids_among seen (get_all_items st "all") → keeps "id" c →
  Forall (λ i, i ∉ seen) (added_ids c) →
  ids_among (seen ++ added_ids c) (get_all_items (step st c) "all").
Proof.
  intros Hst Hkeep Hfresh.
  destruct c as [i t1 t2 title content tags tickers
                |i t1 t2 title url summary content tags tickers
                |i t1 t2 title content source tags tickers
                |i updates kind now
                |i kind]; simpl in Hkeep, Hfresh.
  1-3: inversion_clear Hfresh;
       cbv beta zeta iota delta [step add_note add_article add_research snd added_ids];
       by apply ids_among_added.
  - apply ids_among_more. unfold step, update_item.
    destruct (file_path kind) as [p|]; simpl; [|done].
    destruct (update_first i updates now (_load_data st p)) as [[items'|]|] eqn:Hu;
      simpl; [|done..].
    eapply ids_among_sublist; [|done]. apply ids_all_save_sublist.
    by rewrite (update_first_ids _ _ _ _ _ Hkeep Hu).
  - apply ids_among_more. unfold step, delete_item.
    destruct (file_path kind) as [p|]; simpl; [|done].
    destruct (without_id i (_load_data st p)) as [kept|] eqn:Hw; simpl; [|done].
    destruct (_ <? _)%nat; simpl; [|done].
    eapply ids_among_sublist; [|done].
    by apply ids_all_save_sublist, sublist_ids, (without_id_sublist i).
Qed.

Lemma run_ids_among (cs : list call) (seen : list string) (st : kb) :
  ids_among seen (get_all_items st "all") → Forall (keeps "id") cs →
  NoDup (seen ++ cs ≫= added_ids) →
  ids_among (seen ++ cs ≫= added_ids) (get_all_items (run st cs) "all").
Proof.
  revert seen st. induction cs as [|c cs IH]; intros seen st Hst Hkeep Hnd.
  - simpl. by rewrite app_nil_r.
  - inversion_clear Hkeep as [|? ? Hc Hcs].
    change (run st (c :: cs)) with (run (step st c) cs).
    rewrite bind_cons, app_assoc in Hnd |- *.
    apply IH; [|done..]. apply step_ids_among; [done..|].
    apply NoDup_app in Hnd as (Hnd & _ & _). apply NoDup_app in Hnd as (_ & Hdisj & _).
    apply Forall_forall. intros i Hi Hseen. by apply (Hdisj i).
Qed.

(** Uniqueness: when the ids given to the add calls are pairwise distinct
    and no update names ['id'], the stored items have pairwise distinct
    ids, each the string an add call was given. *)
Theorem ids_stay_unique (cs : list call) :
  NoDup (cs ≫= added_ids) → Forall (keeps "id") cs →
  ids_among (cs ≫= added_ids) (get_all_items (run create_knowledge_base cs) "all").
Proof.
  intros Hnd Hkeep. apply (run_ids_among cs [] create_knowledge_base); [|done..].
  split; constructor.
Qed.
End unique_ids.

Lemma ids_stay_unique_witness :
  ids_among (tagging ≫= added_ids) (get_all_items (run create_knowledge_base tagging) "all").
Proof.
  apply (ids_stay_unique tagging).
  - simpl. apply NoDup_singleton.
  - repeat constructor.
Defined.

(** ** Bounds on the score *)

Lemma count_cons (term : string) (terms : list string) :
  (count (term :: terms) == count terms + 1)%Q.
Proof.
  unfold count. simpl length. by rewrite Nat2Z.inj_succ, <-Z.add_1_r, inject_Z_plus.
Qed.

Lemma sum_over_bounds (f : string → Q) (lo hi : Q) (terms : list string) :
  Forall (λ term, lo <= f term <= hi)%Q terms →
  (lo * count terms <= sum_over f terms <= hi * count terms)%Q.
Proof.
  induction 1 as [|term terms [Hlo Hhi] _ [IHlo IHhi]].
  - change (count []) with 0%Q. change (sum_over f []) with 0%Q. lra.
  - rewrite count_cons. change (sum_over f (term :: terms)) with (f term + sum_over f terms)%Q.
    assert (lo * (count terms + 1) == lo * count terms + lo)%Q as -> by ring.
    assert (hi * (count terms + 1) == hi * count terms + hi)%Q as -> by ring.
    split; lra.
Qed.

Lemma flag_bounds (weight : Q) (present : bool) :
  (0 <= weight)%Q → (0 <= flag weight present <= weight)%Q.
Proof. intros Hw. unfold flag. destruct present; lra. Qed.

Lemma term_score_bounds `{Str} (it : item) (term : string) : (0 <= term_score it term <= 5.5)%Q.
Proof.
  unfold term_score.
  pose proof (flag_bounds 3.0 (contains term (lower (text it "title")))).
  pose proof (flag_bounds 1.0 (contains term (lower (text it "content")))).
  pose proof (flag_bounds 1.5 (contains term (lower (text it "summary")))).
  lra.
Qed.

Section score_bounds.
Context `{Datetime} `{Str}.

Lemma recency_bonus_bounds (it : item) (now : Z) : (0 <= recency_bonus it now <= 0.5)%Q.
Proof.
  unfold recency_bonus. destruct (created_at it); repeat case_decide; lra.
Qed.

(** A score that is returned is the weighted sum plus the bonus. *)
Lemma _calculate_relevance_sum (it : item) (query : string) (now : Z) (score : Q) :
  _calculate_relevance it query now = Some score →
  (score == sum_over (term_score it) (split (lower query)) + recency_bonus it now)%Q.
Proof.
  unfold _calculate_relevance.
  destruct (lower_of (get it "title" _)) as [t|] eqn:Ht; [|done].
  destruct (lower_of (get it "content" _)) as [c|] eqn:Hc; [|done].
  destruct (lower_of (get it "summary" _)) as [s|] eqn:Hs; [|done].
  simpl. intros [= <-].
  rewrite recency_bonus_code, !add_matches_sum.
  apply lower_of_get_text in Ht as ->, Hc as ->, Hs as ->.
  unfold term_score. rewrite <-sum_over_plus. ring.
Qed.

(** The score is never negative and never above 5.5 for each query term
    plus the bonus of 0.5. *)
Theorem relevance_bounds (it : item) (query : string) (now : Z) :
  match _calculate_relevance it query now with
  | Some score => (0 <= score <= 5.5 * count (split (lower query)) + 0.5)%Q
  | None => True
  end.
Proof.
  destruct (_calculate_relevance it query now) as [score|] eqn:Hs; [|done].
  rewrite (_calculate_relevance_sum _ _ _ _ Hs).
  pose proof (recency_bonus_bounds it now).
  pose proof (sum_over_bounds (term_score it) 0 5.5 (split (lower query))) as Hsum.
  destruct Hsum; [|lra]. apply Forall_forall. intros term _. apply term_score_bounds.
Qed.
End score_bounds.

(** ** A hit scores for each term *)

Lemma app_assoc_s (x y z : string) : (x +:+ y) +:+ z = x +:+ (y +:+ z).
Proof. induction x as [|a x IH]; [done|]. exact (f_equal (String a) IH). Qed.

Lemma contains_trans (a b c : string) :
  contains a b = true → contains b c = true → contains a c = true.
Proof.
  rewrite !contains_substring. intros (p1 & q1 & ->) (p2 & q2 & ->).
  exists (p2 +:+ p1), (q1 +:+ q2). by rewrite !app_assoc_s.
Qed.

(** Each term [split] returns is a piece of the string it was cut from. *)
Lemma split_contains `{Str} (s : string) :
  Forall (λ term, contains term s = true) (split s).
Proof.
  eapply Forall_impl; [apply split_pieces|]. intros term Hterm.
  by apply contains_substring.
Qed.

Section hits.
Context `{Datetime} `{Str}.

(** Where the whole query is found, each of its terms is found: a hit
    scores at least 1 for each term of the query.  Only a query without
    terms gives a hit a score below 1. *)
Theorem hit_scores_each_term (it : item) (query : string) (ticker : option string)
    (tags : option (list string)) (now : Z) :
  _matches_search it query ticker tags = Some true →
  ∃ score, _calculate_relevance it query now = Some score
           ∧ (count (split (lower query)) <= score)%Q.
Proof.
  intros Hm.
  destruct (_calculate_relevance_returns it query ticker tags now) as [score Hs];
    [by rewrite Hm|].
  exists score. split; [done|]. rewrite (_calculate_relevance_sum _ _ _ _ Hs).
  pose proof (recency_bonus_bounds it now) as [Hb _].
  assert (Hfound : contains (lower query) (lower (text it "title"))
                   || contains (lower query) (lower (text it "content"))
                   || contains (lower query) (lower (text it "summary")) = true).
  { unfold _matches_search in Hm.
    destruct (lower_of (get it "title" _)) as [t|] eqn:Ht; [|done].
    destruct (lower_of (get it "content" _)) as [c|] eqn:Hc; [|done].
    destruct (lower_of (get it "summary" _)) as [s|] eqn:Hsm; [|done].
    apply lower_of_get_text in Ht as ->, Hc as ->, Hsm as ->. simpl in Hm.
    destruct (contains _ _ || contains _ _ || contains _ _); [done|].
    simpl in Hm. by repeat (case_match; simplify_option_eq). }
  pose proof (sum_over_bounds (term_score it) 1 5.5 (split (lower query))) as Hsum.
  destruct Hsum as [Hlo _]; [|lra].
  eapply Forall_impl; [apply split_contains|]. intros term Hterm. simpl in Hterm.
  split; [|apply term_score_bounds]. unfold term_score, flag.
  apply orb_true_iff in Hfound as [Hfound|Hfound];
    [apply orb_true_iff in Hfound as [Hfound|Hfound]|];
    rewrite (contains_trans _ _ _ Hterm Hfound);
    repeat match goal with |- context [if ?b then _ else _] => destruct b end; lra.
Qed.
End hits.

Lemma hit_scores_each_term_witness :
  ∃ score, _calculate_relevance sample_note "apple earnings" (10 * day) = Some score
           ∧ (count (split (lower "apple earnings")) <= score)%Q.
Proof.
  apply (hit_scores_each_term sample_note "apple earnings" None None (10 * day)%Z).
  by vm_compute.
Defined.

(** ** What a search returns, and when it returns nothing *)

Section search_results.
Context `{Datetime} `{Str}.

(** One item on which the matching raises ends the loop with the
    exception, wherever the item is. *)
Lemma search_items_raises (clock : nat → Z) (query : string) (ticker : option string)
    (tags : option (list string)) (name : string) (items results : list item) :
  Exists (λ it, _matches_search it query ticker tags = None) items →
  search_items clock query ticker tags name items results = None.
Proof.
  revert results. induction items as [|it items IH]; intros results Hex; simpl.
  - by apply Exists_nil in Hex.
  - destruct (_matches_search it query ticker tags) as [[|]|] eqn:Hm; simpl; [| |done].
    + destruct (_calculate_relevance it query (clock (length results))); simpl; [|done].
      apply IH. apply Exists_cons in Hex as [Hit|Hex]; [congruence | done].
    + apply IH. apply Exists_cons in Hex as [Hit|Hex]; [congruence | done].
Qed.

Lemma search_collections_raises (st : kb) (clock : nat → Z) (query : string)
    (ticker : option string) (tags : option (list string))
    (cs : list (string * path)) (results : list item) :
  Exists (λ m, _matches_search m.2 query ticker tags = None) (visited_in st cs) →
  search_collections st clock query ticker tags cs results = None.
Proof.
  revert results. induction cs as [|[name p] cs IH]; intros results Hex.
  - by apply Exists_nil in Hex.
  - change (visited_in st ((name, p) :: cs))
      with (((name,.) <$> _load_data st p) ++ visited_in st cs) in Hex.
    cbn [search_collections]. apply Exists_app in Hex as [Hex|Hex].
    + rewrite search_items_raises; [done|]. by apply Exists_fmap in Hex.
    + destruct (search_items _ _ _ _ _ _ _); simpl; [by apply IH | done].
Qed.

(** One stored item whose title, content or summary is not a string (or
    whose tickers or tags cannot be read when they are filtered on) makes
    every search that visits its collection return the empty list. *)
Theorem search_raise_empties (st : kb) (clock : nat → Z) (query search_type : string)
    (ticker : option string) (tags : option (list string)) :
  Exists (λ m, _matches_search m.2 query ticker tags = None) (visited st search_type) →
  search_knowledge_base st clock query search_type ticker tags = [].
Proof.
  intros Hex. unfold search_knowledge_base.
  by rewrite (search_collections_raises st clock query ticker tags _ [] Hex).
Qed.

(** An article added without content, as [add_article] does by default,
    holds None there: from then on every search over all collections, or
    over the articles, returns the empty list, whatever else is stored. *)
Theorem article_without_content_empties_search (st : kb) (i : string) (t1 t2 : Z)
    (title url summary : value) (article_tags tickers : option (list string))
    (clock : nat → Z) (query : string) (ticker : option string)
    (tags : option (list string)) :
  Forall (λ search_type,
            search_knowledge_base
              (add_article st i t1 t2 title url summary VNone article_tags tickers).2
              clock query search_type ticker tags = [])
    ["all"; "articles"].
Proof.
  assert (Hraise : ∀ search_type, search_type = "all" ∨ search_type = "articles" →
    search_knowledge_base
      (add_article st i t1 t2 title url summary VNone article_tags tickers).2
      clock query search_type ticker tags = []).
  { intros search_type Hsel. unfold search_knowledge_base.
    rewrite (search_collections_raises _ clock query ticker tags _ []); [done|].
    apply Exists_exists. cbv beta zeta iota delta [add_article snd].
    eexists ("articles", _). split.
    - apply elem_of_visited. exists ArticlesFile. split.
      + apply elem_of_collections. split; [|done]. right. by left.
      + cbn [snd]. rewrite load_save_same. apply elem_of_app. right. by left.
    - cbn [snd]. unfold _matches_search.
      match goal with
      | |- context [get ?a "content" ?d] => change (get a "content" d) with VNone
      end.
      by destruct (lower_of (get _ "title" _)). }
  repeat constructor; apply Hraise; auto.
Qed.

(** A search returns nothing but hits: each result is a stored item of a
    visited collection on which the matching returned True, with its score
    and the name of that collection stored in it; and there are no more
    results than visited items. *)
Theorem search_results_are_hits (st : kb) (clock : nat → Z) (query search_type : string)
    (ticker : option string) (tags : option (list string)) :
  Forall (λ x, ∃ m score, m ∈ visited st search_type
                          ∧ _matches_search m.2 query ticker tags = Some true
                          ∧ x = annotated m.2 m.1 score)
    (search_knowledge_base st clock query search_type ticker tags)
  ∧ (length (search_knowledge_base st clock query search_type ticker tags)
     ≤ length (visited st search_type))%nat.
Proof.
  unfold search_knowledge_base.
  pose proof (search_collections_spec st clock query ticker tags
                (collections search_type) []) as Hc.
  destruct (search_collections _ _ _ _ _ _ _) as [out|]; [|split; [constructor | simpl; lia]].
  destruct Hc as (found & -> & Hf). fold (visited st search_type) in Hf. simpl. split.
  - rewrite sort_desc_perm. apply Forall_forall. intros x Hx.
    apply list_elem_of_lookup in Hx as (k & Hk).
    destruct (Forall2_lookup_l _ _ _ _ _ Hf Hk) as (m & Hm & score & ->).
    apply list_elem_of_lookup_2, list_elem_of_filter in Hm as (Hhit & Hvis).
    by exists m, score.
  - rewrite sort_desc_perm, (Forall2_length _ _ _ Hf). apply length_filter.
Qed.
End search_results.

Lemma search_raise_empties_witness :
  search_knowledge_base test_kb (λ _, 4%Z) "test" "all" None None = [].
Proof.
  apply (search_raise_empties test_kb (λ _, 4%Z) "test" "all" None None).
  apply Exists_exists. eexists ("articles", _). split.
  - apply elem_of_visited. exists ArticlesFile. split; [|apply list_elem_of_here].
    apply elem_of_collections. split; [|by left]. right. by left.
  - by vm_compute.
Defined.

(** * The callers in [app.py] *)

(** ** Cutting at the commas *)

Lemma split_on_cons (sep : ascii) (s : string) :
  ∃ piece pieces, split_on sep s = piece :: pieces.
Proof.
  destruct s as [|c s]; simpl; [by eexists _, _|].
  destruct (Ascii.eqb c sep); [by eexists _, _|].
  destruct (split_on sep s); by eexists _, _.
Qed.

(** The pieces of [s.split(sep)], joined by [sep], are [s] again. *)
Lemma join_split_on (sep : ascii) (s : string) :
  join (String sep "") (split_on sep s) = s.
Proof.
  induction s as [|c s IH]; [done|]. cbn [split_on].
  destruct (split_on_cons sep s) as (piece & pieces & Hs). rewrite Hs in *.
  destruct (Ascii.eqb_spec c sep) as [->|Hne].
  - change (join (String sep "") ("" :: piece :: pieces))
      with (String sep (join (String sep "") (piece :: pieces))).
    by rewrite IH.
  - destruct pieces as [|piece' pieces].
    + change (String c piece = String c s). by rewrite <-IH.
    + change (join (String sep "") (String c piece :: piece' :: pieces))
        with (String c (join (String sep "") (piece :: piece' :: pieces))).
      by rewrite IH.
Qed.

(** No piece holds the separator. *)
Lemma split_on_pieces (sep : ascii) (s : string) :
  Forall (λ piece, contains (String sep "") piece = false) (split_on sep s).
Proof.
  induction s as [|c s IH]; cbn [split_on]; [by repeat constructor|].
  destruct (Ascii.eqb_spec c sep) as [->|Hne]; [by constructor|].
  assert (Hhead : ∀ piece, contains (String sep "") piece = false →
                    contains (String sep "") (String c piece) = false).
  { intros piece Hp. simpl in *. destruct (Ascii.eqb_spec sep c) as [->|_]; [done|].
    by destruct piece. }
  destruct (split_on sep s) as [|piece pieces].
  - repeat constructor. by apply Hhead.
  - inversion_clear IH as [|? ? Hp Hps]. constructor; [by apply Hhead | done].
Qed.

Lemma comma_list_typed (typed : string) :
  join "," (comma_list typed) = typed
  ∧ Forall (λ piece, contains "," piece = false) (comma_list typed).
Proof.
  unfold comma_list. destruct (String.eqb_spec typed "") as [->|_]; [by split|].
  split; [apply join_split_on | apply split_on_pieces].
Qed.

(** ** The sidebar forms *)

(** Appending to a collection changes the store. *)
Lemma save_appended_neq (st : kb) (p : path) (r : item) :
  _save_data st p (_load_data st p ++ [r]) ≠ st.
Proof.
  intros Heq. apply (f_equal (λ st, length (_load_data st p))) in Heq.
  rewrite load_save_same, length_app in Heq. simpl in Heq. lia.
Qed.

Section sidebar.
Context `{Datetime} `{Str}.

(** The two forms leave the store as it is exactly when a required input
    is blank: the title or the content of a note, the title or the URL of an
    article.  The empty title that [add_note] itself accepts is stopped
    here; a title of white space is not. *)
Theorem sidebar_saves_unless_blank (st : kb) (i : string) (t1 t2 : Z)
    (title content url summary tags tickers : string) :
  ((save_note_clicked st i t1 t2 title content tags tickers).2 = st
   ↔ title = "" ∨ content = "")
  ∧ ((save_article_clicked st i t1 t2 title url summary tags tickers).2 = st
     ↔ title = "" ∨ url = "").
Proof.
  unfold save_note_clicked, save_article_clicked. split.
  - destruct (String.eqb_spec title ""), (String.eqb_spec content "");
      cbv beta zeta iota delta [negb andb add_note snd];
      try (split; [intros _; auto | done]).
    split; [|by intros [?|?]]. intros Heq. by apply save_appended_neq in Heq.
  - destruct (String.eqb_spec title ""), (String.eqb_spec url "");
      cbv beta zeta iota delta [negb andb add_article snd];
      try (split; [intros _; auto | done]).
    split; [|by intros [?|?]]. intros Heq. by apply save_appended_neq in Heq.
Qed.

(** A note saved through the sidebar is appended to the notes with the
    title and the content as typed.  Its tags are the pieces of the tags
    field, cut at the commas, each stripped; its tickers are the pieces of
    the tickers field, each stripped and then put in upper case; a field
    left empty gives the empty list.  The pieces joined by commas are what
    was typed, and no piece holds a comma.  The note is an item the search
    can read. *)
Theorem sidebar_note_stored (st : kb) (i : string) (t1 t2 : Z)
    (title content tags tickers : string) :
  title ≠ "" → content ≠ "" →
  ∃ r, _load_data (save_note_clicked st i t1 t2 title content tags tickers).2 NotesFile
         = _load_data st NotesFile ++ [r]
       ∧ r !! "title" = Some (VStr title)
       ∧ r !! "content" = Some (VStr content)
       ∧ r !! "tags" = Some (VList (strip <$> comma_list tags))
       ∧ r !! "related_tickers"
         = Some (VList ((λ ticker, upper (strip ticker)) <$> comma_list tickers))
       ∧ (join "," (comma_list tags) = tags
          ∧ Forall (λ piece, contains "," piece = false) (comma_list tags))
       ∧ (join "," (comma_list tickers) = tickers
          ∧ Forall (λ piece, contains "," piece = false) (comma_list tickers))
       ∧ searchable r.
Proof.
  intros Htitle Hcontent. unfold save_note_clicked.
  destruct (String.eqb_spec title ""), (String.eqb_spec content ""); try done.
  cbv beta zeta iota delta [negb andb add_note snd].
  rewrite load_save_same. eexists. split; [done|].
  split; [done|]. split; [done|]. split; [|split; [|split; [|split; [|split]]]].
  - unfold comma_list. by destruct (String.eqb tags "").
  - unfold comma_list. by destruct (String.eqb tickers "").
  - apply comma_list_typed.
  - apply comma_list_typed.
  - intros k Hk.
    repeat (apply elem_of_cons in Hk as [->|Hk]); [right; by eexists.. | by left |].
    by apply elem_of_nil in Hk.
  - intros k Hk.
    repeat (apply elem_of_cons in Hk as [->|Hk]); [right; by eexists.. |].
    by apply elem_of_nil in Hk.
Qed.

(** An article without content ends every search over all collections or
    over the articles in an exception. *)
Lemma search_after_article_without_content (st : kb) (i : string) (t1 t2 : Z)
    (title url summary : value) (article_tags tickers : option (list string))
    (clock : nat → Z) (query search_type : string) (ticker : option string)
    (tags : option (list string)) :
  search_type = "all" ∨ search_type = "articles" →
  search_knowledge_base
    (add_article st i t1 t2 title url summary VNone article_tags tickers).2
    clock query search_type ticker tags = [].
Proof.
  intros Hsel. unfold search_knowledge_base.
  rewrite (search_collections_raises _ clock query ticker tags _ []); [done|].
  apply Exists_exists. cbv beta zeta iota delta [add_article snd].
  eexists ("articles", _). split.
  - apply elem_of_visited. exists ArticlesFile. split.
    + apply elem_of_collections. split; [|done]. right. by left.
    + cbn [snd]. rewrite load_save_same. apply elem_of_app. right. by left.
  - cbn [snd]. unfold _matches_search.
    match goal with
    | |- context [get ?a "content" ?d] => change (get a "content" d) with VNone
    end.
    by destruct (lower_of (get _ "title" _)).
Qed.

(** The article form passes no content, so [add_article] stores None
    there: once an article has been saved through the sidebar, the search
    of the sidebar, and every search over all collections or over the
    articles, returns the empty list. *)
Theorem sidebar_article_empties_search (st : kb) (i : string) (t1 t2 : Z)
    (title url summary article_tags tickers : string) (clock : nat → Z) (query : string)
    (ticker : option string) (tags : option (list string)) :
  title ≠ "" → url ≠ "" →
  Forall (λ search_type,
            search_knowledge_base
              (save_article_clicked st i t1 t2 title url summary article_tags tickers).2
              clock query search_type ticker tags = [])
    ["all"; "articles"].
Proof.
  intros Htitle Hurl. unfold save_article_clicked.
  destruct (String.eqb_spec title ""), (String.eqb_spec url ""); try done.
  cbv beta zeta iota delta [negb andb]. cbn [snd].
  apply Forall_forall. intros search_type Hsel.
  apply search_after_article_without_content.
  repeat (apply elem_of_cons in Hsel as [->|Hsel]); auto. by apply elem_of_nil in Hsel.
Qed.
End sidebar.

Lemma sidebar_note_stored_witness :
  ∃ r, _load_data (save_note_clicked create_knowledge_base "n1" 0 0
                     "Apple" "Strong quarter" "earnings, tech" " aapl ,msft").2 NotesFile
         = _load_data create_knowledge_base NotesFile ++ [r]
       ∧ r !! "title" = Some (VStr "Apple")
       ∧ r !! "content" = Some (VStr "Strong quarter")
       ∧ r !! "tags" = Some (VList (strip <$> comma_list "earnings, tech"))
       ∧ r !! "related_tickers"
         = Some (VList ((λ ticker, upper (strip ticker)) <$> comma_list " aapl ,msft"))
       ∧ (join "," (comma_list "earnings, tech") = "earnings, tech"
          ∧ Forall (λ piece, contains "," piece = false) (comma_list "earnings, tech"))
       ∧ (join "," (comma_list " aapl ,msft") = " aapl ,msft"
          ∧ Forall (λ piece, contains "," piece = false) (comma_list " aapl ,msft"))
       ∧ searchable r.
Proof.
  apply (sidebar_note_stored create_knowledge_base "n1" 0 0
           "Apple" "Strong quarter" "earnings, tech" " aapl ,msft"); discriminate.
Defined.

Lemma sidebar_article_empties_search_witness :
  Forall (λ search_type,
            search_knowledge_base
              (save_article_clicked sample_kb "a1" (9 * day) (9 * day) "Tech Outlook"
                 "https://example.com" "sector trends" "" "AAPL").2
              (λ _, 10 * day)%Z "apple" search_type None None = [])
    ["all"; "articles"].
Proof.
  apply (sidebar_article_empties_search sample_kb "a1" (9 * day) (9 * day) "Tech Outlook"
           "https://example.com" "sector trends" "" "AAPL" (λ _, 10 * day)%Z "apple"
           None None); discriminate.
Defined.

(** What the sidebar stores for the tickers typed as [" aapl ,msft"] and
    for the tags typed as ["earnings, tech"]. *)
Example sidebar_tickers :
  (λ ticker, upper (strip ticker)) <$> comma_list " aapl ,msft" = ["AAPL"; "MSFT"]
  ∧ strip <$> comma_list "earnings, tech" = ["earnings"; "tech"].
Proof. split; reflexivity. Qed.

(** ** The listing *)

Section listing.
Context `{Datetime} `{Str}.

Lemma filter_try_none_kept (cond : item → option bool) (items : list item) :
  Forall (λ it, cond it = Some false) items → filter_try cond items = Some [].
Proof.
  induction 1 as [|it items Hit _ IH]; simpl; [done|]. by rewrite Hit, IH.
Qed.

Lemma filter_try_nil (cond : item → option bool) : filter_try cond [] = Some [].
Proof. done. Qed.

(** No stored item has the key ['collection']: the search writes it in the
    items it returns, never in the files. *)
Lemma stored_without_collection (cs : list call) (p : path) :
  Forall (λ it, it !! "collection" = None) (_load_data (run create_knowledge_base cs) p).
Proof.
  apply (run_Forall (λ _ it, it !! "collection" = None)).
  - intros q. rewrite create_knowledge_base_empty. constructor.
  - apply Forall_forall. intros c _. split.
    + intros q. destruct (added_ids c) eqn:Hadd;
        [rewrite step_empty_kb by done; constructor|].
      destruct c, q; try done; unfold _load_data, read; simpl;
        first [ by apply Forall_nil
              | by apply Forall_cons; split; [|by apply Forall_nil] ].
    + intros i u k now q it _ _ _ Hnone. unfold updated.
      rewrite lookup_insert_ne by done. by rewrite set_fields_lookup, Hnone.
Qed.

Lemma listed_without_collection (cs : list call) :
  Forall (λ it, it !! "collection" = None)
    (get_all_items (run create_knowledge_base cs) "all").
Proof.
  apply Forall_forall. intros it Hit.
  apply elem_of_get_all_items in Hit.
  pose proof (stored_without_collection cs) as Hall.
  setoid_rewrite Forall_forall in Hall. naive_solver.
Qed.

Lemma delete_item_load_other (st : kb) (item_id kind : string) (q : path) :
  file_path kind ≠ Some q →
  _load_data (delete_item st item_id kind).2 q = _load_data st q.
Proof.
  intros Hq. unfold delete_item. destruct (file_path kind) as [p|]; [|done].
  destruct (without_id _ _) as [kept|]; [|done].
  destruct (_ <? _)%nat; simpl; [|done].
  apply load_save_other. congruence.
Qed.

(** The listing filters on the key ['collection'], which only search
    results carry and [get_all_items] does not return: whatever has been
    stored, choosing Notes, Articles or Research shows no item. *)
Theorem type_filter_shows_nothing (cs : list call)
    (filter_type filter_ticker filter_tags : string) :
  is_Some (type_map filter_type) →
  apply_filters (get_all_items (run create_knowledge_base cs) "all")
    filter_type filter_ticker filter_tags = Some [].
Proof.
  intros [name Hname]. unfold apply_filters.
  assert (String.eqb filter_type "All" = false) as ->.
  { apply String.eqb_neq. intros ->. discriminate. }
  simpl. rewrite (filter_try_none_kept _ (get_all_items _ _)); simpl.
  - by destruct (negb (String.eqb filter_ticker "")), (negb (String.eqb filter_tags "")).
  - eapply Forall_impl; [apply listed_without_collection|].
    intros it Hnone. simpl in Hnone. rewrite Hname. simpl. unfold get. by rewrite Hnone.
Qed.

(** For the same reason the Delete button of a listed item always asks for
    the deletion of a note: it reports "Item deleted!" and leaves the
    articles and the research as they are. *)
Theorem delete_button_deletes_notes_only (cs : list call) (it : item) (item_id : string) :
  it ∈ get_all_items (run create_knowledge_base cs) "all" →
  has_id item_id it →
  delete_clicked (run create_knowledge_base cs) it
    = Some ("Item deleted!", (delete_item (run create_knowledge_base cs) item_id "notes").2)
  ∧ Forall (λ p, _load_data (delete_item (run create_knowledge_base cs) item_id "notes").2 p
                 = _load_data (run create_knowledge_base cs) p)
      [ArticlesFile; ResearchFile].
Proof.
  intros Hit Hid. split.
  - pose proof (listed_without_collection cs) as Hall.
    rewrite Forall_forall in Hall. specialize (Hall it Hit). simpl in Hall.
    unfold delete_clicked, get. by rewrite Hid, Hall.
  - repeat constructor; by apply delete_item_load_other.
Qed.
End listing.

Lemma type_filter_shows_nothing_witness :
  apply_filters (get_all_items (run create_knowledge_base one_of_each) "all")
    "Notes" "" "" = Some [].
Proof.
  apply (type_filter_shows_nothing one_of_each "Notes" "" "").
  by eexists.
Defined.

Lemma delete_button_deletes_notes_only_witness :
  delete_clicked (run create_knowledge_base one_of_each) listed_article
    = Some ("Item deleted!",
            (delete_item (run create_knowledge_base one_of_each) "a1" "notes").2)
  ∧ Forall (λ p, _load_data
                   (delete_item (run create_knowledge_base one_of_each) "a1" "notes").2 p
                 = _load_data (run create_knowledge_base one_of_each) p)
      [ArticlesFile; ResearchFile].
Proof.
  apply (delete_button_deletes_notes_only one_of_each listed_article "a1").
  - apply (list_elem_of_lookup_2 _ 1). reflexivity.
  - reflexivity.
Defined.

(** The article of [one_of_each] is still listed after its Delete button
    was clicked. *)
Example delete_button_on_article :
  (λ x, (x.1, (.!! "id") <$> get_all_items x.2 "all"))
    <$> delete_clicked (run create_knowledge_base one_of_each) listed_article
  = Some ("Item deleted!", [Some (VStr "n1"); Some (VStr "a1"); Some (VStr "r1")]).
Proof. reflexivity. Qed.

(** * More on searching and on kinds *)

(** ** The scores of the results *)

Lemma filter_all {A : Type} (P : A → Prop) `{∀ x, Decision (P x)} (l : list A) :
  Forall P l → filter P l = l.
Proof. induction 1 as [|x l Hx _ IH]; [done|]. by rewrite filter_cons_True, IH. Qed.

Section result_scores.
Context `{Datetime} `{Str}.

Lemma search_items_scored (clock : nat → Z) (query : string) (ticker : option string)
    (tags : option (list string)) (name : string) (items results out : list item) :
  search_items clock query ticker tags name items results = Some out →
  ∃ found, out = results ++ found ∧ Forall (scored_hit clock query ticker tags) found.
Proof.
  revert results out. induction items as [|it items IH]; intros results out; simpl.
  - intros [= <-]. exists []. by rewrite app_nil_r.
  - destruct (_matches_search it query ticker tags) as [[|]|] eqn:Hm; simpl; [| |done].
    + destruct (_calculate_relevance it query (clock (length results))) as [score|] eqn:Hs;
        simpl; [|done].
      intros Hout. apply IH in Hout as (found & -> & Hf).
      eexists (_ :: found). split; [by rewrite <-app_assoc|]. constructor; [|done].
      by exists it, name, (length results), score.
    + apply IH.
Qed.

Lemma search_collections_scored (st : kb) (clock : nat → Z) (query : string)
    (ticker : option string) (tags : option (list string))
    (cs : list (string * path)) (results out : list item) :
  search_collections st clock query ticker tags cs results = Some out →
  ∃ found, out = results ++ found ∧ Forall (scored_hit clock query ticker tags) found.
Proof.
  revert results out. induction cs as [|[name p] cs IH]; intros results out.
  - intros [= <-]. exists []. by rewrite app_nil_r.
  - cbn [search_collections].
    destruct (search_items _ _ _ _ _ _ _) as [mid|] eqn:Hi; simpl; [|done].
    apply search_items_scored in Hi as (found & -> & Hf).
    intros Hout. apply IH in Hout as (found' & -> & Hf').
    exists (found ++ found'). split; [by rewrite app_assoc|]. by apply Forall_app.
Qed.

(** The score of a hit: at least 1 and at most 5.5 for each term of the
    query, plus a bonus of at most 0.5. *)
Lemma hit_score_range (it : item) (query : string) (ticker : option string)
    (tags : option (list string)) (now : Z) (score : Q) :
  _matches_search it query ticker tags = Some true →
  _calculate_relevance it query now = Some score →
  (count (split (lower query)) <= score
   ∧ score <= 5.5 * count (split (lower query)) + 0.5)%Q.
Proof.
  intros Hm Hs. rewrite (_calculate_relevance_sum _ _ _ _ Hs).
  pose proof (recency_bonus_bounds it now) as [Hb Hb'].
  assert (Hfound : contains (lower query) (lower (text it "title"))
                   || contains (lower query) (lower (text it "content"))
                   || contains (lower query) (lower (text it "summary")) = true).
  { unfold _matches_search in Hm.
    destruct (lower_of (get it "title" _)) as [t|] eqn:Ht; [|done].
    destruct (lower_of (get it "content" _)) as [c|] eqn:Hc; [|done].
    destruct (lower_of (get it "summary" _)) as [s|] eqn:Hsm; [|done].
    apply lower_of_get_text in Ht as ->, Hc as ->, Hsm as ->. simpl in Hm.
    destruct (contains _ _ || contains _ _ || contains _ _); [done|].
    simpl in Hm. by repeat (case_match; simplify_option_eq). }
  pose proof (sum_over_bounds (term_score it) 1 5.5 (split (lower query))) as Hsum.
  destruct Hsum as [Hlo Hhi]; [|lra].
  eapply Forall_impl; [apply split_contains|]. intros term Hterm. simpl in Hterm.
  split; [|apply term_score_bounds]. unfold term_score, flag.
  apply orb_true_iff in Hfound as [Hfound|Hfound];
    [apply orb_true_iff in Hfound as [Hfound|Hfound]|];
    rewrite (contains_trans _ _ _ Hterm Hfound);
    repeat match goal with |- context [if ?b then _ else _] => destruct b end; lra.
Qed.

Lemma search_knowledge_base_scored (st : kb) (clock : nat → Z)
    (query search_type : string) (ticker : option string) (tags : option (list string)) :
  Forall (scored_hit clock query ticker tags)
    (search_knowledge_base st clock query search_type ticker tags).
Proof.
  unfold search_knowledge_base.
  destruct (search_collections _ _ _ _ _ _ _) as [out|] eqn:Hc; [|constructor].
  apply search_collections_scored in Hc as (found & -> & Hf). simpl.
  by rewrite sort_desc_perm.
Qed.

(** Every result of a search carries a score of at least 1 and at most 5.5
    for each term of the query, plus at most 0.5: with n terms the scores
    lie between n and 5.5 n + 0.5, whatever the store, the clock and the
    filters. *)
Theorem search_scores_in_range (st : kb) (clock : nat → Z) (query search_type : string)
    (ticker : option string) (tags : option (list string)) :
  Forall (λ x, (count (split (lower query)) <= relevance_score x
                ∧ relevance_score x <= 5.5 * count (split (lower query)) + 0.5)%Q)
    (search_knowledge_base st clock query search_type ticker tags).
Proof.
  eapply Forall_impl; [apply search_knowledge_base_scored|].
  intros x (it & name & k & score & -> & Hm & Hs). rewrite annotated_score.
  by eapply hit_score_range.
Qed.

Lemma search_items_scored_from (clock : nat → Z) (query : string)
    (ticker : option string) (tags : option (list string)) (name : string)
    (items results out : list item) :
  search_items clock query ticker tags name items results = Some out →
  ∃ found, out = results ++ found
           ∧ scored_from clock query found
               (filter (hit query ticker tags) ((name,.) <$> items)).
Proof.
  revert results out. induction items as [|it items IH]; intros results out; simpl.
  - intros [= <-]. exists []. split; [by rewrite app_nil_r | constructor].
  - destruct (_matches_search it query ticker tags) as [[|]|] eqn:Hm; simpl; [| |done].
    + destruct (_calculate_relevance it query (clock (length results))) as [score|] eqn:Hs;
        simpl; [|done].
      intros Hout. apply IH in Hout as (found & -> & Hf).
      eexists (_ :: found). split; [by rewrite <-app_assoc|].
      rewrite filter_cons_True by done. constructor; [|done].
      by exists (length results), score.
    + intros Hout. apply IH in Hout as (found & -> & Hf). exists found. split; [done|].
      rewrite filter_cons_False; [done|]. unfold hit. simpl. by rewrite Hm.
Qed.

Lemma search_collections_scored_from (st : kb) (clock : nat → Z) (query : string)
    (ticker : option string) (tags : option (list string))
    (cs : list (string * path)) (results out : list item) :
  search_collections st clock query ticker tags cs results = Some out →
  ∃ found, out = results ++ found
           ∧ scored_from clock query found
               (filter (hit query ticker tags) (visited_in st cs)).
Proof.
  revert results out. induction cs as [|[name p] cs IH]; intros results out.
  - intros [= <-]. exists []. split; [by rewrite app_nil_r | constructor].
  - change (visited_in st ((name, p) :: cs))
      with (((name,.) <$> _load_data st p) ++ visited_in st cs).
    cbn [search_collections].
    destruct (search_items _ _ _ _ _ _ _) as [mid|] eqn:Hi; simpl; [|done].
    apply search_items_scored_from in Hi as (found & -> & Hf).
    intros Hout. apply IH in Hout as (found' & -> & Hf').
    exists (found ++ found'). split; [by rewrite app_assoc|].
    rewrite filter_app. by apply Forall2_app.
Qed.

(** The empty query is a substring of every text and has no term.  When
    the visited items have fields of the declared types, a search for it
    without filters returns every one of them, each with a score equal to
    its recency bonus at a reading of the clock (so between 0 and 0.5), and
    sorted by that score. *)
Theorem empty_query_returns_everything (st : kb) (clock : nat → Z) (search_type : string) :
  Forall (λ m, searchable m.2) (visited st search_type) →
  ∃ found,
    search_knowledge_base st clock "" search_type None None
      = sort_desc relevance_score found
    ∧ Forall2 (λ x m, ∃ k score, x = annotated m.2 m.1 score
                                 ∧ (score == recency_bonus m.2 (clock k))%Q
                                 ∧ (0 <= score <= 0.5)%Q)
        found (visited st search_type).
Proof.
  intros Hs.
  assert (Hall : Forall (hit "" None None) (visited st search_type)).
  { eapply Forall_impl; [exact Hs|]. intros m Hm.
    destruct (_matches_search_spec m.2 "" None None Hm) as (b & Hb & Hiff).
    unfold hit. rewrite Hb. f_equal. apply Hiff. split; [|done].
    left. exists "", (lower (text m.2 "title")).
    by rewrite (lower_ascii "") by reflexivity. }
  unfold search_knowledge_base.
  pose proof (search_collections_spec st clock "" None None
                (collections search_type) []) as Hc.
  destruct (search_collections _ _ _ _ _ _ _) as [out|] eqn:Hout.
  - clear Hc. apply search_collections_scored_from in Hout as (found & -> & Hf).
    fold (visited st search_type) in Hf. rewrite (filter_all _ _ Hall) in Hf.
    exists found. split; [done|].
    eapply Forall2_impl; [exact Hf|]. intros x m (k & score & -> & Hsc).
    exists k, score. split; [done|].
    apply _calculate_relevance_sum in Hsc.
    rewrite (lower_ascii "") in Hsc by reflexivity.
    rewrite (split_ascii (ascii_lower "")) in Hsc by reflexivity.
    change (sum_over (term_score m.2) (ascii_split (ascii_lower ""))) with 0%Q in Hsc.
    pose proof (recency_bonus_bounds m.2 (clock k)). split; lra.
  - exfalso. apply Hc. eapply Forall_impl; [exact Hall|]. intros m Hm.
    unfold hit in Hm. rewrite Hm. eauto.
Qed.
End result_scores.

Lemma empty_query_returns_everything_witness :
  ∃ found,
    search_knowledge_base aging_kb (λ _, 31 * day)%Z "" "notes" None None
      = sort_desc relevance_score found
    ∧ Forall2 (λ x m, ∃ (k : nat) score, x = annotated m.2 m.1 score
                                 ∧ (score == recency_bonus m.2 (31 * day))%Q
                                 ∧ (0 <= score <= 0.5)%Q)
        found (visited aging_kb "notes").
Proof.
  apply (empty_query_returns_everything aging_kb (λ _, 31 * day)%Z "notes").
  let v := eval vm_compute in (visited aging_kb "notes") in
  change (visited aging_kb "notes") with v.
  apply Forall_cons; split; [|apply Forall_cons; split; [|apply Forall_nil]];
    (split; intros k Hk;
     repeat (apply elem_of_cons in Hk as [->|Hk];
             [first [by left | right; by eexists]|]);
     by apply elem_of_nil in Hk).
Defined.

(** The two notes of [aging_kb], found by the empty query: the one created
    at day 31 comes first with the bonus 0.5, the one of day 0 scores 0.2. *)
Example empty_query_on_aging_kb :
  (λ x, (x !! "id", relevance_score x))
    <$> search_knowledge_base aging_kb (λ _, 31 * day)%Z "" "all" None None
  = [(Some (VStr "a"), 0.5%Q); (Some (VStr "b"), 0.2%Q)].
Proof. vm_compute. reflexivity. Qed.

(** ** Kinds that are no kind *)

(** A kind other than the three names, and other than "all", reads
    nothing: [get_item] returns None, [get_all_items] and the search return
    the empty list, whatever is stored. *)
Theorem unknown_kind_reads_nothing `{Datetime} `{Str} (st : kb) (clock : nat → Z)
    (item_id kind query : string) (ticker : option string) (tags : option (list string)) :
  kind ≠ "notes" → kind ≠ "articles" → kind ≠ "research" → kind ≠ "all" →
  get_item st item_id (Some kind) = None
  ∧ get_all_items st kind = []
  ∧ search_knowledge_base st clock query kind ticker tags = [].
Proof.
  intros Hn Ha Hr Hall. split; [|split].
  - unfold get_item, get_item_try.
    rewrite !(bool_decide_eq_false_2 (Some kind = Some _)) by congruence.
    by rewrite !(bool_decide_eq_false_2 (Some kind = None)) by done.
  - unfold get_all_items.
    by apply String.eqb_neq in Hn as ->, Ha as ->, Hr as ->, Hall as ->.
  - unfold search_knowledge_base, collections.
    by apply String.eqb_neq in Hn as ->, Ha as ->, Hr as ->, Hall as ->.
Qed.

Lemma unknown_kind_reads_nothing_witness :
  get_item sample_kb "n1" (Some "note") = None
  ∧ get_all_items sample_kb "note" = []
  ∧ search_knowledge_base sample_kb (λ _, 10 * day)%Z "apple" "note" None None = [].
Proof.
  apply (unknown_kind_reads_nothing sample_kb (λ _, 10 * day)%Z "n1" "note" "apple"
           None None); discriminate.
Defined.

(** ** Adding over a file that cannot be read *)

(** [_load_data] turns a file that cannot be read into the empty list, and
    an add operation saves that list with the new item over the file:
    whatever the file held is replaced by the one item. *)
Theorem add_replaces_unreadable_file `{Datetime} (st : kb) (c : call) (p : path) :
  target c = Some p →
  read st p = Unreadable →
  ∃ r i, read (step st c) p = Data [r] ∧ added_ids c = [i] ∧ has_id i r.
Proof.
  intros Hp Hread.
  assert (_load_data st p = []) as Hl by (unfold _load_data; by rewrite Hread).
  destruct c; simplify_eq/=;
    cbv beta zeta iota delta [add_note add_article add_research snd];
    rewrite Hl; eexists _, _; (split; [reflexivity|done]).
Qed.

Lemma add_replaces_unreadable_file_witness :
  ∃ r i, read (step corrupt_kb
                 (AddNote "n2" 0 0 (VStr "T") (VStr "c") None None)) NotesFile = Data [r]
         ∧ added_ids (AddNote "n2" 0 0 (VStr "T") (VStr "c") None None) = [i]
         ∧ has_id i r.
Proof.
  apply (add_replaces_unreadable_file corrupt_kb
           (AddNote "n2" 0 0 (VStr "T") (VStr "c") None None) NotesFile); reflexivity.
Defined.
